(** * areena-saami-scraper: subtitle corpus pipeline

    A shallow embedding of [process_subs.py] (SRT parser, normaliser and
    merger) and [analyze_corpus.py] (corpus statistics), followed by the
    properties of the specification that were checked against them.

    Modelling conventions.
    - A Python [str] is a [string]; the character tables ([str.isspace],
      [str.isdigit], [str.lower], the regex class [\w]) are those of the
      7-bit ASCII range.  Characters above 127 are outside the tables: they
      are kept as they are and classified as neither blank, digit nor word
      character.  A property that Python's Unicode tables would not keep is
      stated for ASCII text only.
    - Python integers that count things ([len], [Counter] values) are [nat];
      the [top_n] argument is a [Z] since a caller may pass any integer.
    - numpy/Python floats are kept exact: a rational, the square root of a
      rational, or NaN.  Rounding to [n] decimals is done on the exact value
      (ties to even), so the last-bit behaviour of IEEE doubles is not
      modelled.
    - Exceptions are values of a sum type; console output ([print]) is not
      modelled. *)

From Stdlib Require Import Ascii QArith Qround Lqa.
From stdpp Require Import base list strings gmap sorting pretty.
Close Scope Q_scope.

(** ** Python exceptions and the error monad *)

Inductive exn : Type :=
  | ZeroDivisionError
  | OSError
  | UnicodeDecodeError
  | LangDetectException.

Definition result (A : Type) : Type := exn + A.

Global Instance result_ret : MRet result := fun A x => inr x.
Global Instance result_bind : MBind result := fun A B k m =>
  match m with
  | inl e => inl e
  | inr x => k x
  end.
Definition raise {A} (e : exn) : result A := inl e.

(** ** [str] methods *)

Module PyStr.

(** The line feed character. *)
Definition LF : ascii := "010"%char.
Definition nl : string := String LF "".

(** [c.isspace()] on the ASCII range: TAB, LF, VT, FF, CR, the four
    separators FS, GS, RS, US and the space. *)
Definition isspace (c : ascii) : bool :=
  match c with
  | "009" | "010" | "011" | "012" | "013"
  | "028" | "029" | "030" | "031" | " " => true
  | _ => false
  end%char.

Definition is_digit (c : ascii) : bool :=
  let n := nat_of_ascii c in (48 <=? n) && (n <=? 57).

Definition is_upper (c : ascii) : bool :=
  let n := nat_of_ascii c in (65 <=? n) && (n <=? 90).

Definition is_lower (c : ascii) : bool :=
  let n := nat_of_ascii c in (97 <=? n) && (n <=? 122).

Definition lower_char (c : ascii) : ascii :=
  if is_upper c then ascii_of_nat (nat_of_ascii c + 32) else c.

(** [s.lower()] on the ASCII range: only the letters [A-Z] change. *)
Fixpoint lower (s : string) : string :=
  match s with
  | "" => ""
  | String c r => String (lower_char c) (lower r)
  end.

Definition is_empty (s : string) : bool :=
  match s with "" => true | _ => false end.

(** Truth value of a string in a condition ([if text:]). *)
Definition truthy (s : string) : bool := negb (is_empty s).

Fixpoint lstrip (s : string) : string :=
  match s with
  | "" => ""
  | String c r => if isspace c then lstrip r else s
  end.

Fixpoint rstrip (s : string) : string :=
  match s with
  | "" => ""
  | String c r =>
      let r' := rstrip r in
      if is_empty r' && isspace c then "" else String c r'
  end.

(** [s.strip()] *)
Definition strip (s : string) : string := rstrip (lstrip s).

(** [s.isdigit()]: at least one character, all of them digits. *)
Fixpoint all_digits (s : string) : bool :=
  match s with
  | "" => true
  | String c r => is_digit c && all_digits r
  end.
Definition isdigit (s : string) : bool := truthy s && all_digits s.

Fixpoint startswith (p s : string) : bool :=
  match p, s with
  | "", _ => true
  | String a p', String b s' => bool_decide (a = b) && startswith p' s'
  | String _ _, "" => false
  end.

(** [sub in s] *)
Fixpoint contains (sub s : string) : bool :=
  startswith sub s ||
  match s with
  | "" => false
  | String _ r => contains sub r
  end.

(** [s.split()] with no argument: the maximal runs of non-blank
    characters.  [cur] holds the run being read, if any. *)
Fixpoint split_go (cur : option string) (s : string) : list string :=
  match s with
  | "" => match cur with Some w => [w] | None => [] end
  | String c r =>
      if isspace c then
        match cur with
        | Some w => w :: split_go None r
        | None => split_go None r
        end
      else
        split_go (Some (from_option id "" cur +:+ String c "")) r
  end.
Definition split (s : string) : list string := split_go None s.

(** [sep.join(parts)] *)
Fixpoint join (sep : string) (parts : list string) : string :=
  match parts with
  | [] => ""
  | [p] => p
  | p :: ps => p +:+ sep +:+ join sep ps
  end.

End PyStr.

(** ** The three regular expressions of the program *)

Module PyRe.

(** The class [\w] on the ASCII range: letters, digits, underscore. *)
Definition is_word (c : ascii) : bool :=
  PyStr.is_digit c || PyStr.is_upper c || PyStr.is_lower c
  || bool_decide (c = "_"%char).

(** [re.findall(r'\b\w+\b', s)].  [\w+] is greedy and must end at a word
    boundary, so a match is a maximal run of word characters; the scan
    resumes after it.  [cur] holds the run being read, if any. *)
Fixpoint findall_go (cur : option string) (s : string) : list string :=
  match s with
  | "" => match cur with Some w => [w] | None => [] end
  | String c r =>
      if is_word c then
        findall_go (Some (from_option id "" cur +:+ String c "")) r
      else
        match cur with
        | Some w => w :: findall_go None r
        | None => findall_go None r
        end
  end.
Definition findall_words (s : string) : list string := findall_go None s.

(** The class [[.!?]]. *)
Definition is_terminator (c : ascii) : bool :=
  match c with
  | "." | "!" | "?" => true
  | _ => false
  end%char.

(** [re.split(r'[.!?]+', s)]: the pieces between maximal runs of
    terminators, empty pieces included (so the result is never empty).
    [cur] is the piece being read, [in_run] tells whether the previous
    character was a terminator. *)
Fixpoint split_go (cur : string) (in_run : bool) (s : string) : list string :=
  match s with
  | "" => [cur]
  | String c r =>
      if is_terminator c then
        if in_run then split_go "" true r
        else cur :: split_go "" true r
      else
        split_go (cur +:+ String c "") false r
  end.
Definition split_terminators (s : string) : list string := split_go "" false s.

(** Length of the match of [<[^>]+>] at the start of [s], if there is one:
    a ['<'], at least one character other than ['>'], then a ['>'].
    [tag_body s] is the number of characters of [s] up to and including
    the first ['>']. *)
Fixpoint tag_body (s : string) : option nat :=
  match s with
  | "" => None
  | String c r =>
      if bool_decide (c = ">"%char) then Some 1
      else S <$> tag_body r
  end.

Definition match_tag (s : string) : option nat :=
  match s with
  | String "<" (String c r) =>
      if bool_decide (c = ">"%char) then None
      else (fun n => S (S n)) <$> tag_body r
  | _ => None
  end.

(** [re.sub(r'<[^>]+>', '', s)]: scanning from the left, a match is
    deleted and the scan resumes after it; a character at which there is
    no match is copied.  [skip] is the number of characters of the current
    match that are still to be deleted. *)
Fixpoint sub_go (skip : nat) (s : string) : string :=
  match s with
  | "" => ""
  | String c r =>
      match skip with
      | S k => sub_go k r
      | O =>
          match match_tag s with
          | Some n => sub_go (pred n) r
          | None => String c (sub_go 0 r)
          end
      end
  end.
Definition sub_tags (s : string) : string := sub_go 0 s.

End PyRe.

(** ** Numbers: exact floats, rounding and their printed form *)

(** A float before rounding, kept exact.  [Root q] is the non-negative square
    root of [q]. *)
Inductive real : Type :=
  | NaN
  | Rat (q : Q)
  | Root (q : Q).

(** A Python number: an [int] or a [float]. *)
Inductive pynum : Type :=
  | PyInt (z : Z)
  | PyFloat (x : real).

(** The result of [round(x, nd)]: an [int] stays an [int], NaN stays NaN,
    any other float becomes the decimal [m / 10^nd]. *)
Inductive rounded : Type :=
  | RInt (z : Z)
  | RNaN
  | RDec (m : Z) (nd : nat).

Module PyNum.

(** [a / b] on integers. *)
Definition truediv (a b : nat) : result pynum :=
  match b with
  | O => raise ZeroDivisionError
  | S _ => mret (PyFloat (Rat (Z.of_nat a # Pos.of_nat b)%Q))
  end.

Definition pow10 (n : nat) : Z := 10 ^ Z.of_nat n.

(** Nearest integer, ties to the even one. *)
Definition round_half_even (q : Q) : Z :=
  let f := Qfloor q in
  match Qcompare (q - inject_Z f)%Q (1 # 2)%Q with
  | Lt => f
  | Gt => (f + 1)%Z
  | Eq => if Z.even f then f else (f + 1)%Z
  end.

(** Nearest integer to the square root of [q] (for [0 <= q]): with
    [k = floor (sqrt q)], compare [q] with [(k + 1/2)^2]. *)
Definition round_root_half_even (q : Q) : Z :=
  let k := Z.sqrt (Qfloor q) in
  match Qcompare q (((2 * k + 1) * (2 * k + 1))%Z # 4)%Q with
  | Lt => k
  | Gt => (k + 1)%Z
  | Eq => if Z.even k then k else (k + 1)%Z
  end.

Definition round_real (x : real) (nd : nat) : rounded :=
  match x with
  | NaN => RNaN
  | Rat q => RDec (round_half_even (q * inject_Z (pow10 nd))%Q) nd
  | Root q =>
      RDec (round_root_half_even (q * inject_Z (pow10 nd * pow10 nd)%Z)%Q) nd
  end.

(** [round(x, nd)] *)
Definition round (x : pynum) (nd : nat) : rounded :=
  match x with
  | PyInt z => RInt z
  | PyFloat r => round_real r nd
  end.

Fixpoint strip_zeros_rev (s : string) : string :=
  match s with
  | String "0" r => strip_zeros_rev r
  | _ => s
  end.

(** The [nd] decimals of [m / 10^nd] without trailing zeros, but at least
    one digit. *)
Definition decimals (m : Z) (nd : nat) : string :=
  let digits := pretty (Z.to_nat (m mod pow10 nd)) in
  let padded := Nat.iter (nd - String.length digits) (String "0") digits in
  match String.rev (strip_zeros_rev (String.rev padded)) with
  | "" => "0"
  | d => d
  end.

(** The text an f-string gives for a rounded, non-negative number below
    [10^16] (where the shortest representation of a float is plain
    decimal): [2.33], [2.0], [0], [nan]. *)
Definition str (x : rounded) : string :=
  match x with
  | RInt z => pretty z
  | RNaN => "nan"
  | RDec m nd => pretty (m `div` pow10 nd)%Z +:+ "." +:+ decimals m nd
  end.

End PyNum.

(** ** numpy reductions over a list of integers *)

Module Numpy.

Definition sumQ (l : list Q) : Q := foldr Qplus (0 # 1)%Q l.

Definition meanQ (l : list Q) : real :=
  match l with
  | [] => NaN
  | _ :: _ => Rat (sumQ l / inject_Z (Z.of_nat (length l)))%Q
  end.

Definition of_nat (n : nat) : Q := inject_Z (Z.of_nat n).

(** [np.mean(l)]: NaN (and a warning) for the empty list. *)
Definition mean (l : list nat) : real := meanQ (of_nat <$> l).

(** [np.median(l)]: the middle element of the sorted list, or the mean of
    the two middle ones; NaN for the empty list. *)
Definition median (l : list nat) : real :=
  let sorted := merge_sort (≤) l in
  let n := length l in
  let h := n `div` 2 in
  match n with
  | O => NaN
  | S _ =>
      if Nat.even n
      then meanQ (of_nat <$> [sorted !!! (h - 1); sorted !!! h])
      else meanQ (of_nat <$> [sorted !!! h])
  end.

(** [np.std(l)]: the square root of the mean squared deviation from the
    mean; NaN for the empty list. *)
Definition std (l : list nat) : real :=
  match mean l with
  | Rat mu =>
      match meanQ ((fun x => (of_nat x - mu) * (of_nat x - mu))%Q <$> l) with
      | Rat v => Root v
      | _ => NaN
      end
  | _ => NaN
  end.

End Numpy.

(** ** [collections.Counter] *)

Module Collections.
Section counter.
Context {A : Type} `{EqDecision A}.

(** [c[k] += 1] on a dict kept in insertion order: an existing key keeps
its place, a new key goes last. *)
Fixpoint incr (k : A) (c : list (A * nat)) : list (A * nat) :=
match c with
| [] => [(k, 1)]
| (k', n) :: r =>
  if decide (k = k') then (k', S n) :: r else (k', n) :: incr k r
end.

(** [Counter(l)] *)
Definition Counter (l : list A) : list (A * nat) :=
foldl (fun c k => incr k c) [] l.

(** Stable sort by decreasing count: an entry is placed in front of the
first entry whose count is not larger; entries are inserted last
first, so that among equal counts the original order is kept. *)
Fixpoint rank_insert (x : A * nat) (l : list (A * nat)) : list (A * nat) :=
match l with
| [] => [x]
| y :: r => if decide (x.2 < y.2) then y :: rank_insert x r else x :: l
end.

Definition rank (c : list (A * nat)) : list (A * nat) :=
foldr rank_insert [] c.

(** [c.most_common(n)], that is [heapq.nlargest(n, c.items(), key=count)],
which is [sorted(c.items(), key=count, reverse=True)[:n]] for [0 <= n]
and empty for a negative [n]. *)
Definition most_common (c : list (A * nat)) (n : Z) : list (A * nat) :=
take (Z.to_nat n) (rank c).

End counter.
End Collections.

(** ** process_subs.py *)

(** What iterating over an opened file delivers: a line, or an exception
    ([open] failing is an exception before the first line). *)
Inductive read_event : Type :=
  | Line (l : string)
  | Failure (e : exn).

(** A subtitle file, as the sequence of events reading it produces.  Events
    after a failure are never reached. *)
Definition srt_file : Type := list read_event.

Module IO.

(** The lines Python's text mode delivers for a file content: CR LF and a
    lone CR are read as LF, every line keeps its LF, and a last line
    without one is delivered too. *)
Fixpoint lines_go (cur : string) (s : string) : list string :=
  match s with
  | "" => if PyStr.is_empty cur then [] else [cur]
  | String c r =>
      if bool_decide (c = PyStr.LF) then
        (cur +:+ PyStr.nl) :: lines_go "" r
      else if bool_decide (c = "013"%char) then
        match r with
        | String c' _ =>
            if bool_decide (c' = PyStr.LF) then lines_go cur r
            else (cur +:+ PyStr.nl) :: lines_go "" r
        | "" => [cur +:+ PyStr.nl]
        end
      else lines_go (cur +:+ String c "") r
  end.
Definition readlines (content : string) : list string := lines_go "" content.

(** A file that opens and decodes without error. *)
Definition readable (content : string) : srt_file := Line <$> readlines content.

(** The lines of a written artifact: the pieces ended by LF, and a last
    piece without LF if there is one. *)
Fixpoint artifact_lines_go (cur : string) (s : string) : list string :=
  match s with
  | "" => if PyStr.is_empty cur then [] else [cur]
  | String c r =>
      if bool_decide (c = PyStr.LF) then cur :: artifact_lines_go "" r
      else artifact_lines_go (cur +:+ String c "") r
  end.
Definition artifact_lines (content : string) : list string :=
  artifact_lines_go "" content.

End IO.

Module process_subs.

Definition clean_subtitle_text (text : string) : string :=
  let text := PyRe.sub_tags text in
  let text := PyStr.join " " (PyStr.split text) in
  PyStr.strip text.

(** The local variables of [process_srt_file]. *)
Record locals : Type := {
  subtitle_texts : list string;
  current_text : list string;
  in_subtitle_text : bool
}.

Definition initial : locals :=
  {| subtitle_texts := []; current_text := []; in_subtitle_text := false |}.

(** [text = clean_subtitle_text(' '.join(current_text))] and the guarded
    append, used at a blank line and once more after the loop. *)
Definition flush (texts current : list string) : list string :=
  match current with
  | [] => texts
  | _ :: _ =>
      let text := clean_subtitle_text (PyStr.join " " current) in
      if PyStr.truthy text then texts ++ [text] else texts
  end.

(** One iteration of the loop body. *)
Definition loop_body (st : locals) (raw : string) : locals :=
  let line := PyStr.strip raw in
  if negb (PyStr.truthy line) then
    {| subtitle_texts := flush (subtitle_texts st) (current_text st);
       current_text := [];
       in_subtitle_text := false |}
  else if PyStr.contains "-->" line then
    {| subtitle_texts := subtitle_texts st;
       current_text := current_text st;
       in_subtitle_text := true |}
  else if PyStr.isdigit line then st
  else if in_subtitle_text st then
    {| subtitle_texts := subtitle_texts st;
       current_text := current_text st ++ [line];
       in_subtitle_text := in_subtitle_text st |}
  else st.

(** The [for line in f] loop inside [try]: an exception leaves it. *)
Fixpoint read_loop (st : locals) (f : srt_file) : result locals :=
  match f with
  | [] => mret st
  | Line l :: rest => read_loop (loop_body st l) rest
  | Failure e :: _ => raise e
  end.

Definition process_srt_file (f : srt_file) : list string :=
  match read_loop initial f with
  | inl _ => []
  | inr st => flush (subtitle_texts st) (current_text st)
  end.

(** The comprehension
    [[x for x in all_subtitles if not (x in seen or seen.add(x))]]. *)
Fixpoint unique_from (seen : gset string) (l : list string) : list string :=
  match l with
  | [] => []
  | x :: r =>
      if decide (x ∈ seen) then unique_from seen r
      else x :: unique_from ({[x]} ∪ seen) r
  end.

(** [all_subtitles] after the loop over the files. *)
Definition all_subtitles (blocks : list (list string)) : list string :=
  foldl (fun acc subtitles => acc ++ subtitles) [] blocks.

(** The Merger proper: from the per-file block sequences to
    [unique_subtitles]. *)
Definition unique_subtitles (blocks : list (list string)) : list string :=
  unique_from ∅ (all_subtitles blocks).

(** The content written to [output_file]. *)
Definition write_output (subtitles : list string) : string :=
  foldl (fun out subtitle =>
           if PyStr.truthy subtitle then out +:+ subtitle +:+ PyStr.nl
           else out) "" subtitles.

(** [process_srt_directory], given the files the glob found, in the order
    it found them: [None] when nothing is written (no file), otherwise the
    content of the output file. *)
Definition process_srt_directory (srt_files : list srt_file) : option string :=
  match srt_files with
  | [] => None
  | _ :: _ =>
      Some (write_output (unique_subtitles (process_srt_file <$> srt_files)))
  end.

End process_subs.

(** ** analyze_corpus.py *)

(** The dictionary [basic_stats] returns. *)
Record stats : Type := {
  total_words : nat;
  unique_words : nat;
  total_sentences : nat;
  average_sentence_length : rounded;
  median_sentence_length : rounded;
  type_token_ratio : rounded;
  sentence_length_std : rounded
}.

Module analyze_corpus.

(** The attributes of a [CorpusAnalyzer] object. *)
Record CorpusAnalyzer : Type := {
  raw_text : string;
  sentences : list string;
  words : list string
}.

Definition _split_into_sentences (raw_text : string) : list string :=
  let sentences := PyRe.split_terminators raw_text in
  PyStr.strip <$> filter (fun s => PyStr.truthy (PyStr.strip s) = true) sentences.

Definition _tokenize (raw_text : string) : list string :=
  PyRe.findall_words (PyStr.lower raw_text).

(** [CorpusAnalyzer(text)] *)
Definition __init__ (text : string) : CorpusAnalyzer :=
  {| raw_text := text;
     sentences := _split_into_sentences text;
     words := _tokenize text |}.

(** [[len(re.findall(r'\b\w+\b', s)) for s in self.sentences]] *)
Definition sentence_lengths (self : CorpusAnalyzer) : list nat :=
  (fun s => length (PyRe.findall_words s)) <$> sentences self.

(** The local [ttr] of [basic_stats]. *)
Definition ttr (unique_words total_words : nat) : result pynum :=
  if bool_decide (0 < total_words)
  then PyNum.truediv unique_words total_words
  else mret (PyInt 0).

Definition basic_stats (self : CorpusAnalyzer) : result stats :=
  let total_words := length (words self) in
  let unique_words := size (list_to_set (words self) : gset string) in
  let total_sentences := length (sentences self) in
  let sentence_lengths := sentence_lengths self in
  let avg_sentence_length := Numpy.mean sentence_lengths in
  let median_sentence_length := Numpy.median sentence_lengths in
  ttr ← ttr unique_words total_words;
  mret {| total_words := total_words;
          unique_words := unique_words;
          total_sentences := total_sentences;
          average_sentence_length :=
            PyNum.round (PyFloat avg_sentence_length) 2;
          median_sentence_length :=
            PyNum.round (PyFloat median_sentence_length) 2;
          type_token_ratio := PyNum.round ttr 4;
          sentence_length_std :=
            PyNum.round (PyFloat (Numpy.std sentence_lengths)) 2 |}.

(** The default of the [top_n] parameter. *)
Definition default_top_n : Z := 20.

Definition word_frequency (self : CorpusAnalyzer) (top_n : Z)
  : list (string * nat) :=
  Collections.most_common (Collections.Counter (words self)) top_n.

Definition sentence_length_distribution (self : CorpusAnalyzer)
  : list (nat * nat) :=
  Collections.Counter (sentence_lengths self).

(** [detect_languages], for a classifier [detect] with an internal state
    of type [St] (langdetect draws random samples): a call returns a
    language code or raises, and leaves a new state. *)
Section languages.
Context {St : Type} (detect : St → string → result string * St).

Fixpoint detect_loop (st : St) (language_counts : list (string * nat))
    (sentences : list string) : list (string * nat) * St :=
  match sentences with
  | [] => (language_counts, st)
  | sentence :: rest =>
      let '(r, st') := detect st sentence in
      match r with
      | inr lang => detect_loop st' (Collections.incr lang language_counts) rest
      | inl _ => detect_loop st' (Collections.incr "unknown" language_counts) rest
      end
  end.

Definition detect_languages (st : St) (self : CorpusAnalyzer)
  : list (string * nat) * St :=
  detect_loop st [] (sentences self).
End languages.

(** [sorted(length_dist.items())]: by increasing key (the keys of a dict
    are distinct, so the counts are never compared). *)
Fixpoint sorted_insert (x : nat * nat) (l : list (nat * nat)) : list (nat * nat) :=
  match l with
  | [] => [x]
  | y :: r => if decide (y.1 < x.1) then y :: sorted_insert x r else x :: l
  end.
Definition sorted_items (d : list (nat * nat)) : list (nat * nat) :=
  foldr sorted_insert [] d.

(** The list [report] of [generate_report]. *)
Definition report_lines (stats : stats) (freq : list (string * nat))
    (length_dist : list (nat * nat)) : list string :=
  [ "=== Sami Corpus Analysis Report ===" +:+ PyStr.nl;
    PyStr.nl +:+ "=== Basic Statistics ===";
    "Total Words: " +:+ pretty (total_words stats);
    "Unique Words: " +:+ pretty (unique_words stats);
    "Total Sentences: " +:+ pretty (total_sentences stats);
    "Average Sentence Length: "
      +:+ PyNum.str (average_sentence_length stats) +:+ " words";
    "Median Sentence Length: "
      +:+ PyNum.str (median_sentence_length stats) +:+ " words";
    "Type-Token Ratio: " +:+ PyNum.str (type_token_ratio stats);
    "Sentence Length Std Dev: " +:+ PyNum.str (sentence_length_std stats);
    PyStr.nl +:+ "=== Top 10 Most Frequent Words ===" ]
  ++ ((fun wc => wc.1 +:+ ": " +:+ pretty wc.2) <$> freq)
  ++ [ PyStr.nl +:+ "=== Sentence Length Distribution ===" ]
  ++ ((fun lc => pretty lc.1 +:+ " words: " +:+ pretty lc.2 +:+ " sentences")
        <$> sorted_items length_dist).

Definition generate_report (self : CorpusAnalyzer) : result string :=
  stats ← basic_stats self;
  let freq := word_frequency self 10 in
  let length_dist := sentence_length_distribution self in
  mret (PyStr.join PyStr.nl (report_lines stats freq length_dist)).

End analyze_corpus.

(** ** sami_programs.py *)

(** A value [json.loads] returns.  A [JObj] is a Python dict: its keys are
    distinct, and a lookup takes the binding of the key. *)
#[warnings="-register-all"]
Inductive json : Type :=
  | JNull
  | JBool (b : bool)
  | JInt (z : Z)
  | JFloat (x : real)
  | JStr (s : string)
  | JArr (items : list json)
  | JObj (members : list (string * json)).

(** The two exceptions subscripting and iterating such a value raise. *)
Inductive lookup_error : Type :=
  | KeyError
  | TypeError.

(** What running ffprobe gives: [subprocess.run] raises, or the process
    exits with a return code and [json.loads] of its output gives a value
    or raises ([None]). *)
Inductive ffprobe_run : Type :=
  | RunRaised
  | Exited (returncode : Z) (loaded : option json).

(** A video file the glob found: [str(video_file)], [video_file.name] and
    what ffprobe does on it. *)
Record video : Type := {
  video_path : string;
  video_name : string;
  ffprobe : ffprobe_run
}.

(** The directory the subtitles are written to. *)
Inductive output_path : Type :=
  | GivenDir (output_dir : string)
  | DefaultDir (input_dir : string).

(** One invocation of ffmpeg: the [-i] argument, the stream index put after
    ["0:"] in the [-map] argument, and the output file as directory and
    file name. *)
Record ffmpeg_call : Type := {
  call_input : string;
  call_stream : json;
  call_dir : output_path;
  call_output : string
}.

Module sami_programs.

Fixpoint dict_get (key : string) (members : list (string * json)) : option json :=
  match members with
  | [] => None
  | (k, v) :: rest => if decide (key = k) then Some v else dict_get key rest
  end.

(** [v[key]] for a string [key]. *)
Definition getitem (v : json) (key : string) : lookup_error + json :=
  match v with
  | JObj members =>
      match dict_get key members with
      | Some x => inr x
      | None => inl KeyError
      end
  | _ => inl TypeError
  end.

Fixpoint chars (s : string) : list json :=
  match s with
  | "" => []
  | String c r => JStr (String c "") :: chars r
  end.

(** The elements [for stream in v] runs through: the items of a list, the
    keys of a dict, the characters of a string. *)
Definition iterate (v : json) : lookup_error + list json :=
  match v with
  | JArr items => inr items
  | JObj members => inr (JStr <$> members.*1)
  | JStr s => inr (chars s)
  | _ => inl TypeError
  end.

(** [stream['codec_type'] == 'subtitle'] *)
Definition is_subtitle (stream : json) : lookup_error + bool :=
  match getitem stream "codec_type" with
  | inl e => inl e
  | inr (JStr s) => inr (bool_decide (s = "subtitle"))
  | inr _ => inr false
  end.

(** The comprehension over [data['streams']]. *)
Fixpoint subtitle_streams (streams : list json) : lookup_error + list json :=
  match streams with
  | [] => inr []
  | stream :: rest =>
      match is_subtitle stream with
      | inl e => inl e
      | inr keep =>
          match subtitle_streams rest with
          | inl e => inl e
          | inr kept => inr (if keep then stream :: kept else kept)
          end
      end
  end.

(** [get_subtitle_info]: every exception ends in [None]. *)
Definition get_subtitle_info (run : ffprobe_run) : option (list json) :=
  match run with
  | RunRaised => None
  | Exited returncode loaded =>
      if bool_decide (returncode ≠ 0%Z) then None
      else
        match loaded with
        | None => None
        | Some data =>
            match getitem data "streams" with
            | inl _ => None
            | inr streams =>
                match iterate streams with
                | inl _ => None
                | inr items =>
                    match subtitle_streams items with
                    | inl _ => None
                    | inr found => Some found
                    end
                end
            end
        end
  end.

(** [name.rfind('.')] *)
Fixpoint rfind_dot (name : string) : option nat :=
  match name with
  | "" => None
  | String c r =>
      match rfind_dot r with
      | Some i => Some (S i)
      | None => if bool_decide (c = "."%char) then Some 0 else None
      end
  end.

(** [Path.stem] of a file name: the name up to its last dot, unless that
    dot is the first or the last character or there is none. *)
Definition stem (name : string) : string :=
  match rfind_dot name with
  | Some i =>
      if (0 <? i) && (i <? String.length name - 1)
      then String.substring 0 i name
      else name
  | None => name
  end.

(** [output_path] of [extract_subtitles]: the default for [None] and for
    the empty string. *)
Definition choose_output (input_dir : string) (output_dir : option string)
  : output_path :=
  match output_dir with
  | Some dir => if PyStr.truthy dir then GivenDir dir else DefaultDir input_dir
  | None => DefaultDir input_dir
  end.

(** The loop over the subtitle streams of one video: the ffmpeg calls made,
    and the exception that ended the loop, if any.  What ffmpeg does is only
    printed. *)
Fixpoint extract_streams (out : output_path) (v : video) (streams : list json)
  : list ffmpeg_call * option lookup_error :=
  match streams with
  | [] => ([], None)
  | stream :: rest =>
      match getitem stream "index" with
      | inl e => ([], Some e)
      | inr stream_index =>
          let call := {| call_input := video_path v;
                         call_stream := stream_index;
                         call_dir := out;
                         call_output := stem (video_name v) +:+ ".srt" |} in
          let '(calls, e) := extract_streams out v rest in
          (call :: calls, e)
      end
  end.

(** The loop over the video files. *)
Fixpoint extract_videos (out : output_path) (video_files : list video)
  : list ffmpeg_call * option lookup_error :=
  match video_files with
  | [] => ([], None)
  | v :: rest =>
      match get_subtitle_info (ffprobe v) with
      | None | Some [] => extract_videos out rest
      | Some streams =>
          match extract_streams out v streams with
          | (calls, Some e) => (calls, Some e)
          | (calls, None) =>
              let '(calls', e) := extract_videos out rest in
              (calls ++ calls', e)
          end
      end
  end.

(** [extract_subtitles], given what the two globs found. *)
Definition extract_subtitles (input_dir : string) (output_dir : option string)
    (mp4 mkv : list video) : list ffmpeg_call * option lookup_error :=
  extract_videos (choose_output input_dir output_dir) (mp4 ++ mkv).

End sami_programs.

(** * Vocabulary of the properties *)

Import analyze_corpus process_subs.

(** ** The parser on lines read without error *)

(** The state of the loop after a list of lines, all read without error. *)
Definition run (st : locals) (lines : list string) : locals :=
  foldl loop_body st lines.

Definition flush_locals (st : locals) : list string :=
  flush (subtitle_texts st) (current_text st).

(** A line of subtitle text: not blank, no timing marker, not a number. *)
Definition is_text_line (l : string) : Prop :=
  PyStr.truthy (PyStr.strip l) = true
  ∧ PyStr.contains "-->" (PyStr.strip l) = false
  ∧ PyStr.isdigit (PyStr.strip l) = false.

(** The three kinds of line the loop tells apart after trimming. *)
Definition is_blank_line (l : string) : Prop := PyStr.strip l = "".
Definition is_timing_line (l : string) : Prop :=
  PyStr.contains "-->" (PyStr.strip l) = true.
Definition is_index_line (l : string) : Prop :=
  PyStr.isdigit (PyStr.strip l) = true.

(** The lines of a file that were read before any failure. *)
Fixpoint lines_read (f : srt_file) : list string :=
  match f with
  | Line l :: rest => l :: lines_read rest
  | _ => []
  end.

(** Number of timing lines among some lines. *)
Definition timing_count (lines : list string) : nat :=
  length (filter (fun l => PyStr.contains "-->" (PyStr.strip l) = true) lines).

(** Between two blocks: no text pending and not inside a block. *)
Definition idle (st : locals) : Prop :=
  current_text st = [] ∧ in_subtitle_text st = false.

(** ** Strings, character by character *)

Fixpoint str_all (P : ascii → bool) (s : string) : bool :=
  match s with
  | "" => true
  | String c r => P c && str_all P r
  end.

Definition not_lf (c : ascii) : bool := negb (bool_decide (c = PyStr.LF)).
Definition not_space (c : ascii) : bool := negb (PyStr.isspace c).

(** A string without line feed. *)
Definition lf_free (s : string) : Prop := str_all not_lf s = true.

Definition not_lt (c : ascii) : bool := negb (bool_decide (c = "<"%char)).
Definition not_gt (c : ascii) : bool := negb (bool_decide (c = ">"%char)).

(** A word: at least one character, none of them blank. *)
Definition is_word_of_text (w : string) : Prop :=
  w ≠ "" ∧ str_all not_space w = true.

(** The last character, if there is one, is not blank. *)
Fixpoint ends_unblank (s : string) : bool :=
  match s with
  | "" => true
  | String c "" => not_space c
  | String _ r => ends_unblank r
  end.

(** Whitespace-normal form: the words of the string joined by single
    spaces give the string back. *)
Definition whitespace_normal (s : string) : Prop :=
  PyStr.join " " (PyStr.split s) = s.

(** No suffix of the string starts with a match of the tag pattern. *)
Fixpoint tag_free (s : string) : bool :=
  match s with
  | "" => true
  | String _ r =>
      match PyRe.match_tag s with
      | None => tag_free r
      | Some _ => false
      end
  end.

(** [squeezed x y]: [y] is [x] with some blanks dropped and the others
    replaced by a space. *)
Inductive squeezed : string → string → Prop :=
  | squeezed_nil : squeezed "" ""
  | squeezed_keep c x y :
      PyStr.isspace c = false → squeezed x y →
      squeezed (String c x) (String c y)
  | squeezed_drop c x y :
      PyStr.isspace c = true → squeezed x y → squeezed (String c x) y
  | squeezed_space c x y :
      PyStr.isspace c = true → squeezed x y →
      squeezed (String c x) (String " " y).

(** The first character, if there is one, is not blank. *)
Definition starts_unblank (s : string) : bool :=
  match s with
  | "" => true
  | String c _ => not_space c
  end.

Definition not_terminator (c : ascii) : bool := negb (PyRe.is_terminator c).
Definition not_upper (c : ascii) : bool := negb (PyStr.is_upper c).

(** Number of places of [s] where a run of word characters starts, [prev]
    telling whether a word character stands just before [s]. *)
Fixpoint word_starts (prev : bool) (s : string) : nat :=
  match s with
  | "" => 0
  | String c r =>
      (if PyRe.is_word c && negb prev then 1 else 0)
      + word_starts (PyRe.is_word c) r
  end.

(** Whether a word character stands at the end of [s] ([prev] for the
    empty string). *)
Fixpoint ends_in_word (prev : bool) (s : string) : bool :=
  match s with
  | "" => prev
  | String c r => ends_in_word (PyRe.is_word c) r
  end.

(** ** ASCII text *)

(** [c.isascii()] and [s.isascii()]: code points below 128, the range on
    which the character tables of this file are those of Python. *)
Definition is_ascii_char (c : ascii) : bool := nat_of_ascii c <? 128.
Definition ascii_text (s : string) : Prop := str_all is_ascii_char s = true.

(** ** The report *)

(** The line of the report for one entry of the distribution. *)
Definition distribution_line (lc : nat * nat) : string :=
  pretty lc.1 +:+ " words: " +:+ pretty lc.2 +:+ " sentences".

(** ** Streams and ffmpeg calls *)

Global Instance lookup_error_eq_dec : EqDecision lookup_error.
Proof. solve_decision. Defined.

(** A stream the comprehension of [get_subtitle_info] keeps. *)
Definition kept_stream (stream : json) : Prop :=
  sami_programs.is_subtitle stream = inr true.

(** The number of subtitle streams [get_subtitle_info] reports for a video
    (none when it returns [None]). *)
Definition reported_streams (v : video) : nat :=
  length (default [] (sami_programs.get_subtitle_info (ffprobe v))).

(** No dot in the string. *)
Definition not_dot (c : ascii) : bool := negb (bool_decide (c = "."%char)).

(** ** Counting and ranking *)

Section counting.
Context {A : Type} `{EqDecision A}.

(** Number of occurrences of [x] in [l]. *)
Definition occurrences (x : A) (l : list A) : nat :=
  length (filter (fun y => y = x) l).

(** Position of the first occurrence of [x] in [l] ([length l] if none). *)
Fixpoint first_index (x : A) (l : list A) : nat :=
  match l with
  | [] => 0
  | y :: r => if decide (x = y) then 0 else S (first_index x r)
  end.

(** [c[k]], which is [0] for a missing key. *)
Fixpoint get (k : A) (c : list (A * nat)) : nat :=
  match c with
  | [] => 0
  | (k', n) :: r => if decide (k = k') then n else get k r
  end.

(** The ranking order: a larger count first, and among equal counts the key
    that appears first in [l]. *)
Definition ranks_before (l : list A) (a b : A * nat) : Prop :=
  b.2 < a.2 ∨ (a.2 = b.2 ∧ first_index a.1 l < first_index b.1 l).

End counting.

(** ** Markup spans as the specification words them *)

(** The reading of the specification: every span from a ['<'] up to the
    next ['>'] is removed, whatever lies between them. *)
Definition span_at (s : string) : option nat :=
  match s with
  | String "<" r => S <$> PyRe.tag_body r
  | _ => None
  end.

Fixpoint remove_spans_go (skip : nat) (s : string) : string :=
  match s with
  | "" => ""
  | String c r =>
      match skip with
      | S k => remove_spans_go k r
      | O =>
          match span_at s with
          | Some n => remove_spans_go (pred n) r
          | None => String c (remove_spans_go 0 r)
          end
      end
  end.
Definition remove_spans (s : string) : string := remove_spans_go 0 s.

(** * Properties *)

(** ** The statistics of a text *)

Lemma ttr_total (u t : nat) :
  ttr u t =
    inr (if decide (0 < t) then PyFloat (Rat (Z.of_nat u # Pos.of_nat t)%Q)
         else PyInt 0).
Proof.
  unfold ttr, PyNum.truediv.
  case_bool_decide; case_decide; try lia; [|done].
  by destruct t; [lia|].
Qed.

Lemma basic_stats_total (self : CorpusAnalyzer) :
  ∃ st, basic_stats self = inr st.
Proof.
  unfold basic_stats. rewrite ttr_total. simpl. eauto.
Qed.

Lemma fraction_is_quotient (u t : nat) :
  0 < t →
  (Z.of_nat u # Pos.of_nat t == Numpy.of_nat u / Numpy.of_nat t)%Q.
Proof.
  intros Ht. unfold Numpy.of_nat.
  rewrite (Qmake_Qdiv (Z.of_nat u) (Pos.of_nat t)).
  replace (Z.pos (Pos.of_nat t)) with (Z.of_nat t); [reflexivity|].
  destruct t as [|t]; [lia|]. rewrite <- Pos.of_nat_succ. lia.
Qed.

(** C1. The worked example of the specification: tokens, sentences, the
    basic statistics with their rounded and printed values, and the two most
    frequent words of ["Cats run. Dogs run fast! Cats run."]. *)
Theorem statistics_example :
  let self := __init__ "Cats run. Dogs run fast! Cats run." in
  words self = ["cats"; "run"; "dogs"; "run"; "fast"; "cats"; "run"]
  ∧ sentences self = ["Cats run"; "Dogs run fast"; "Cats run"]
  ∧ sentence_lengths self = [2; 3; 2]
  ∧ ttr 4 7 = inr (PyFloat (Rat (4 # 7)%Q))
  ∧ basic_stats self =
      inr {| total_words := 7;
             unique_words := 4;
             total_sentences := 3;
             average_sentence_length := RDec 233 2;
             median_sentence_length := RDec 200 2;
             type_token_ratio := RDec 5714 4;
             sentence_length_std := RDec 47 2 |}
  ∧ PyNum.str (RDec 233 2) = "2.33"
  ∧ PyNum.str (RDec 200 2) = "2.0"
  ∧ PyNum.str (RDec 5714 4) = "0.5714"
  ∧ word_frequency self 2 = [("run", 3); ("cats", 2)].
Proof. repeat split; vm_compute; reflexivity. Qed.

(** C2. On the empty text (no sentence) [basic_stats] returns without an
    exception, and the mean, the median and the standard deviation of the
    sentence lengths are all reported as NaN, while the type-token ratio
    next to them is guarded and reported as [0]. *)
Theorem empty_text_statistics_are_nan :
  basic_stats (__init__ "") =
    inr {| total_words := 0;
           unique_words := 0;
           total_sentences := 0;
           average_sentence_length := RNaN;
           median_sentence_length := RNaN;
           type_token_ratio := RInt 0;
           sentence_length_std := RNaN |}
  ∧ PyNum.str RNaN = "nan".
Proof. split; vm_compute; reflexivity. Qed.

(** The same for every analyzer without sentences. *)
Lemma no_sentence_statistics (self : CorpusAnalyzer) :
  sentences self = [] →
  ∃ st, basic_stats self = inr st
        ∧ average_sentence_length st = RNaN
        ∧ median_sentence_length st = RNaN
        ∧ sentence_length_std st = RNaN.
Proof.
  intros Hs. unfold basic_stats. rewrite ttr_total. simpl.
  eexists; split; [reflexivity|]. simpl.
  unfold sentence_lengths. rewrite Hs. by vm_compute.
Qed.

(** C6. [basic_stats] always returns; the ratio it rounds to four decimals
    is [unique_words / total_words] when there is a word, and the integer
    [0] when there is none: the division, which raises on a zero divisor,
    is not evaluated then. *)
Theorem type_token_ratio_guarded (self : CorpusAnalyzer) :
  ∃ r st,
    ttr (size (list_to_set (words self) : gset string)) (length (words self))
      = inr r
    ∧ basic_stats self = inr st
    ∧ total_words st = length (words self)
    ∧ unique_words st = size (list_to_set (words self) : gset string)
    ∧ type_token_ratio st = PyNum.round r 4
    ∧ (0 < total_words st →
       ∃ q, r = PyFloat (Rat q)
            ∧ (q == Numpy.of_nat (unique_words st)
                    / Numpy.of_nat (total_words st))%Q)
    ∧ (total_words st = 0 → r = PyInt 0 ∧ type_token_ratio st = RInt 0)
    ∧ PyNum.truediv (unique_words st) 0 = inl ZeroDivisionError.
Proof.
  unfold basic_stats. rewrite ttr_total. simpl.
  eexists _, _. split; [reflexivity|]. split; [reflexivity|]. simpl.
  repeat split.
  - intros Ht. rewrite decide_True by done.
    eexists; split; [reflexivity|]. by apply fraction_is_quotient.
  - rewrite decide_False by lia. done.
  - rewrite decide_False by lia. done.
Qed.

Lemma type_token_ratio_guarded_witness :
  ∃ q, ttr 4 7 = inr (PyFloat (Rat q)) ∧ (q == 4 / 7)%Q.
Proof.
  destruct (type_token_ratio_guarded
              (__init__ "Cats run. Dogs run fast! Cats run."))
    as (r & st & Hr & Hst & Ht & Hu & _ & Hpos & _).
  destruct Hpos as (q & -> & Hq); [rewrite Ht; vm_compute; lia|].
  exists q. split; [exact Hr|]. rewrite Hq, Ht, Hu. by vm_compute.
Defined.

(** ** The parser *)

Lemma read_loop_lines (st : locals) (lines : list string) :
  read_loop st (Line <$> lines) = inr (run st lines).
Proof.
  revert st. induction lines as [|l lines IH]; intros st; [done|].
  simpl. apply IH.
Qed.

Lemma read_loop_failure (st : locals) (before after : srt_file) (e : exn) :
  ∃ e', read_loop st (before ++ Failure e :: after) = inl e'.
Proof.
  revert st. induction before as [|[l|e0] before IH]; intros st; simpl.
  - by exists e.
  - apply IH.
  - by exists e0.
Qed.

Lemma process_srt_file_lines (lines : list string) :
  process_srt_file (Line <$> lines) = flush_locals (run initial lines).
Proof. unfold process_srt_file. by rewrite read_loop_lines. Qed.

Lemma run_app (st : locals) (l1 l2 : list string) :
  run st (l1 ++ l2) = run (run st l1) l2.
Proof. apply foldl_app. Qed.

Lemma loop_body_blank (st : locals) (l : string) :
  PyStr.strip l = "" →
  loop_body st l =
    {| subtitle_texts := flush_locals st;
       current_text := [];
       in_subtitle_text := false |}.
Proof. intros H. unfold loop_body. by rewrite H. Qed.

Lemma loop_body_timing (st : locals) (l : string) :
  PyStr.contains "-->" (PyStr.strip l) = true →
  loop_body st l =
    {| subtitle_texts := subtitle_texts st;
       current_text := current_text st;
       in_subtitle_text := true |}.
Proof.
  intros H. unfold loop_body. rewrite H.
  by destruct (PyStr.strip l).
Qed.

Lemma all_digits_no_marker (s : string) :
  PyStr.all_digits s = true → PyStr.contains "-->" s = false.
Proof.
  induction s as [|c s IH]; [done|].
  simpl. intros [Hc Hs]%andb_prop. rewrite (IH Hs), orb_false_r.
  case_bool_decide as Heq; [|done]. by rewrite <- Heq in Hc.
Qed.

Lemma loop_body_index (st : locals) (l : string) :
  PyStr.isdigit (PyStr.strip l) = true → loop_body st l = st.
Proof.
  intros H. unfold loop_body. rewrite H.
  apply andb_prop in H as [Ht Hd].
  by rewrite Ht, (all_digits_no_marker _ Hd).
Qed.

Lemma loop_body_text (st : locals) (l : string) :
  is_text_line l →
  in_subtitle_text st = true →
  loop_body st l =
    {| subtitle_texts := subtitle_texts st;
       current_text := current_text st ++ [PyStr.strip l];
       in_subtitle_text := true |}.
Proof.
  intros (Ht & Hm & Hd) Hin. unfold loop_body.
  by rewrite Ht, Hm, Hd, Hin.
Qed.

Lemma run_text (texts current : list string) (body : list string) :
  Forall is_text_line body →
  run {| subtitle_texts := texts; current_text := current;
         in_subtitle_text := true |} body =
    {| subtitle_texts := texts;
       current_text := current ++ (PyStr.strip <$> body);
       in_subtitle_text := true |}.
Proof.
  intros Hb. revert current.
  induction Hb as [|l body Hl _ IH]; intros current; simpl.
  - by rewrite app_nil_r.
  - rewrite loop_body_text by done. simpl. rewrite IH. by rewrite <- app_assoc.
Qed.

(** After lines that are none or end with a blank line no text is pending,
    and the blocks found so far are those of the whole prefix. *)
Lemma run_closed (pre : list string) :
  PyStr.strip (default "" (last pre)) = "" →
  current_text (run initial pre) = []
  ∧ subtitle_texts (run initial pre) = process_srt_file (Line <$> pre).
Proof.
  intros H. rewrite process_srt_file_lines.
  destruct pre as [|l pre _] using rev_ind; [done|].
  rewrite last_snoc in H. simpl in H.
  rewrite run_app. simpl. by rewrite loop_body_blank.
Qed.

(** C4. A file whose reading raises at any point yields no block, whatever
    was read before; the merged output of a directory holding such a file
    is that of the other files, and it is written all the same. *)
Theorem failed_file_contributes_nothing
    (before after : srt_file) (e : exn) (files1 files2 : list srt_file) :
  let bad := before ++ Failure e :: after in
  process_srt_file bad = []
  ∧ unique_subtitles (process_srt_file <$> (files1 ++ bad :: files2)) =
      unique_subtitles (process_srt_file <$> (files1 ++ files2))
  ∧ process_srt_directory (files1 ++ bad :: files2) =
      Some (write_output
              (unique_subtitles (process_srt_file <$> (files1 ++ files2))))
  ∧ process_srt_file [Line "0 --> 1"; Line "kept"; Line ""] = ["kept"]
  ∧ process_srt_file [Line "0 --> 1"; Line "kept"; Line ""; Failure e] = [].
Proof.
  intros bad.
  assert (Hbad : process_srt_file bad = []).
  { unfold process_srt_file, bad.
    by destruct (read_loop_failure initial before after e) as [e' ->]. }
  assert (Hall : all_subtitles (process_srt_file <$> (files1 ++ bad :: files2)) =
                 all_subtitles (process_srt_file <$> (files1 ++ files2))).
  { unfold all_subtitles. rewrite !fmap_app, !foldl_app. simpl.
    by rewrite Hbad, app_nil_r. }
  split; [done|]. split; [unfold unique_subtitles; by rewrite Hall|].
  split; [|by split].
  unfold process_srt_directory, unique_subtitles. rewrite Hall.
  by destruct files1.
Qed.

(** Reaching the end of the file flushes as a blank line does. *)
Lemma final_flush_as_blank_line (lines : list string) :
  process_srt_file (Line <$> lines) =
  process_srt_file (Line <$> (lines ++ [PyStr.nl])).
Proof.
  rewrite !process_srt_file_lines, run_app. simpl.
  by rewrite loop_body_blank.
Qed.

(** C5. The last block of a file is kept when no blank line follows it.
    Let the lines before it be none or end with a blank line, and let the
    block be an index line, a timing line and text lines: the parser yields
    the blocks of the lines before, then the normalised text of the block
    (if it is not empty), exactly as when a blank line ends the file; and
    for any lines at all, adding a final blank line changes nothing. *)
Theorem trailing_entry_preserved
    (pre : list string) (index timing : string) (body : list string) :
  PyStr.strip (default "" (last pre)) = "" →
  PyStr.isdigit (PyStr.strip index) = true →
  PyStr.contains "-->" (PyStr.strip timing) = true →
  Forall is_text_line body →
  let text := clean_subtitle_text (PyStr.join " " (PyStr.strip <$> body)) in
  let block := if PyStr.truthy text then [text] else [] in
  process_srt_file (Line <$> (pre ++ [index; timing] ++ body)) =
    process_srt_file (Line <$> pre) ++ block
  ∧ process_srt_file (Line <$> (pre ++ [index; timing] ++ body ++ [PyStr.nl])) =
      process_srt_file (Line <$> pre) ++ block
  ∧ (∀ lines : list string,
       process_srt_file (Line <$> lines) =
       process_srt_file (Line <$> (lines ++ [PyStr.nl]))).
Proof.
  intros Hpre Hidx Htim Hbody text block.
  destruct (run_closed pre Hpre) as [Hcur Htexts].
  assert (Hrun : run initial (pre ++ [index; timing] ++ body) =
                 {| subtitle_texts := process_srt_file (Line <$> pre);
                    current_text := PyStr.strip <$> body;
                    in_subtitle_text := true |}).
  { rewrite run_app. change ([index; timing] ++ body) with (index :: timing :: body).
    change (run ?st (index :: timing :: body))
      with (run (loop_body (loop_body st index) timing) body).
    rewrite (loop_body_index _ index), (loop_body_timing _ timing) by done.
    rewrite Hcur, Htexts. by rewrite run_text. }
  assert (Hflush : flush (process_srt_file (Line <$> pre)) (PyStr.strip <$> body) =
                   process_srt_file (Line <$> pre) ++ block).
  { unfold flush, block, text. destruct (PyStr.strip <$> body) eqn:Heq.
    - by rewrite app_nil_r.
    - by destruct (PyStr.truthy _); [|rewrite app_nil_r]. }
  split; [|split; [|apply final_flush_as_blank_line]].
  - rewrite process_srt_file_lines, Hrun. exact Hflush.
  - rewrite process_srt_file_lines.
    replace (pre ++ [index; timing] ++ body ++ [PyStr.nl])
      with ((pre ++ [index; timing] ++ body) ++ [PyStr.nl])
      by (by rewrite <- !app_assoc).
    rewrite run_app, Hrun. simpl. rewrite loop_body_blank by done.
    unfold flush_locals. simpl. exact Hflush.
Qed.

Lemma trailing_entry_preserved_witness :
  process_srt_file
    (IO.readable ("1" +:+ PyStr.nl +:+ "00:00:01,000 --> 00:00:02,000"
                  +:+ PyStr.nl +:+ "Hello world"))
  = ["Hello world"].
Proof.
  refine (proj1 (trailing_entry_preserved
            [] ("1" +:+ PyStr.nl)
            ("00:00:01,000 --> 00:00:02,000" +:+ PyStr.nl)
            ["Hello world"] _ _ _ _)).
  - reflexivity.
  - reflexivity.
  - reflexivity.
  - repeat constructor.
Defined.

(** ** Strings, character by character *)

Lemma str_app_cons (c : ascii) (s t : string) :
  String c s +:+ t = String c (s +:+ t).
Proof. reflexivity. Qed.

Lemma str_app_nil_r (s : string) : s +:+ "" = s.
Proof. induction s as [|c s IH]; [done|]. by rewrite str_app_cons, IH. Qed.

Lemma str_app_assoc (s t u : string) : (s +:+ t) +:+ u = s +:+ t +:+ u.
Proof. induction s as [|c s IH]; [done|]. by rewrite !str_app_cons, IH. Qed.

Lemma str_all_app (P : ascii → bool) (s t : string) :
  str_all P (s +:+ t) = str_all P s && str_all P t.
Proof.
  induction s as [|c s IH]; [done|].
  rewrite str_app_cons. simpl. by rewrite IH, andb_assoc.
Qed.

Lemma str_all_impl (P Q : ascii → bool) (s : string) :
  (∀ c, P c = true → Q c = true) →
  str_all P s = true → str_all Q s = true.
Proof.
  intros HPQ. induction s as [|c s IH]; [done|]. simpl.
  intros [Hc Hs]%andb_prop. by rewrite (HPQ _ Hc), IH.
Qed.

Lemma lstrip_all (P : ascii → bool) (s : string) :
  str_all P s = true → str_all P (PyStr.lstrip s) = true.
Proof.
  induction s as [|c s IH]; [done|]. simpl.
  intros Hall. destruct (PyStr.isspace c); [|done].
  apply IH. by apply andb_prop in Hall as [_ ?].
Qed.

Lemma rstrip_all (P : ascii → bool) (s : string) :
  str_all P s = true → str_all P (PyStr.rstrip s) = true.
Proof.
  induction s as [|c s IH]; [done|]. simpl.
  intros [Hc Hs]%andb_prop.
  destruct (PyStr.is_empty _ && PyStr.isspace c); [done|].
  simpl. by rewrite Hc, IH.
Qed.

Lemma strip_all (P : ascii → bool) (s : string) :
  str_all P s = true → str_all P (PyStr.strip s) = true.
Proof. intros H. by apply rstrip_all, lstrip_all. Qed.

Lemma split_go_all (cur : option string) (s : string) :
  str_all not_space (default "" cur) = true →
  Forall (fun w => str_all not_space w = true) (PyStr.split_go cur s).
Proof.
  revert cur. induction s as [|c s IH]; intros cur Hcur; simpl.
  - destruct cur; repeat constructor. done.
  - destruct (PyStr.isspace c) eqn:Hc.
    + destruct cur; [constructor; [done|]|]; by apply IH.
    + apply IH. simpl. rewrite str_all_app. simpl.
      unfold not_space at 2. rewrite Hc. simpl.
      by destruct cur; simpl in *; rewrite ?Hcur.
Qed.

Lemma join_all (P : ascii → bool) (sep : string) (parts : list string) :
  str_all P sep = true →
  Forall (fun w => str_all P w = true) parts →
  str_all P (PyStr.join sep parts) = true.
Proof.
  intros Hsep. induction 1 as [|w parts Hw Hparts IH]; [done|].
  simpl. destruct parts as [|w' parts]; [done|].
  by rewrite !str_all_app, Hw, Hsep, IH.
Qed.

Lemma clean_subtitle_text_lf_free (text : string) :
  lf_free (clean_subtitle_text text).
Proof.
  unfold lf_free, clean_subtitle_text. apply strip_all, join_all; [done|].
  eapply Forall_impl; [by apply split_go_all|].
  intros w. apply str_all_impl. intros c. unfold not_space, not_lf.
  case_bool_decide as Hc; [by subst c|done].
Qed.

Lemma flush_lf_free (texts current : list string) :
  Forall lf_free texts → Forall lf_free (flush texts current).
Proof.
  intros H. unfold flush. destruct current; [done|].
  destruct (PyStr.truthy _); [|done].
  apply Forall_app. split; [done|].
  repeat constructor. apply clean_subtitle_text_lf_free.
Qed.

Lemma loop_body_lf_free (st : locals) (l : string) :
  Forall lf_free (subtitle_texts st) →
  Forall lf_free (subtitle_texts (loop_body st l)).
Proof.
  intros H. unfold loop_body.
  repeat (match goal with |- context [if ?b then _ else _] => destruct b end);
    simpl; try done.
  by apply flush_lf_free.
Qed.

Lemma read_loop_lf_free (f : srt_file) (st st' : locals) :
  Forall lf_free (subtitle_texts st) →
  read_loop st f = inr st' →
  Forall lf_free (subtitle_texts st').
Proof.
  revert st. induction f as [|[l|e] f IH]; intros st Hst; simpl.
  - by intros [= <-].
  - apply IH. by apply loop_body_lf_free.
  - done.
Qed.

(** Every block the parser yields is free of line feeds. *)
Lemma process_srt_file_lf_free (f : srt_file) :
  Forall lf_free (process_srt_file f).
Proof.
  unfold process_srt_file. destruct (read_loop initial f) as [e|st] eqn:Hf.
  - constructor.
  - apply flush_lf_free. eapply read_loop_lf_free; [|done]. constructor.
Qed.

(** ** The merger *)

Lemma all_subtitles_concat (blocks : list (list string)) :
  all_subtitles blocks = concat blocks.
Proof.
  unfold all_subtitles.
  enough (∀ acc, foldl (fun acc subtitles => acc ++ subtitles) acc blocks
                 = acc ++ concat blocks) as H by apply H.
  induction blocks as [|b blocks IH]; intros acc; simpl.
  - by rewrite app_nil_r.
  - by rewrite IH, app_assoc.
Qed.

Lemma unique_from_elem (seen : gset string) (l : list string) (x : string) :
  x ∈ unique_from seen l ↔ x ∈ l ∧ x ∉ seen.
Proof.
  revert seen. induction l as [|y l IH]; intros seen; simpl.
  - set_solver.
  - case_decide as Hy.
    + rewrite IH. set_solver.
    + rewrite elem_of_cons, IH.
      destruct (decide (x = y)) as [->|Hxy]; set_solver.
Qed.

Lemma unique_from_NoDup (seen : gset string) (l : list string) :
  NoDup (unique_from seen l).
Proof.
  revert seen. induction l as [|y l IH]; intros seen; simpl.
  - constructor.
  - case_decide; [apply IH|].
    constructor; [|apply IH]. rewrite unique_from_elem. set_solver.
Qed.

Lemma unique_from_app (seen : gset string) (l1 l2 : list string) :
  unique_from seen (l1 ++ l2) =
  unique_from seen l1 ++ unique_from (list_to_set l1 ∪ seen) l2.
Proof.
  revert seen. induction l1 as [|y l1 IH]; intros seen; simpl.
  - by rewrite (left_id_L ∅ (∪)).
  - case_decide as Hy.
    + rewrite IH. do 2 f_equal. set_solver.
    + rewrite IH. simpl. do 3 f_equal. set_solver.
Qed.

(** The first occurrence of a string fixes its place in the output: it
    follows the output for what precedes it, whatever comes later. *)
Lemma unique_from_first_occurrence (pre post : list string) (x : string) :
  x ∉ pre →
  unique_from ∅ (pre ++ x :: post) =
  unique_from ∅ pre ++ x :: unique_from ({[x]} ∪ (list_to_set pre ∪ ∅)) post.
Proof.
  intros Hx. rewrite unique_from_app. simpl.
  rewrite decide_False; [done|]. set_solver.
Qed.

Lemma write_output_fold (out : string) (subtitles : list string) :
  foldl (fun out subtitle =>
           if PyStr.truthy subtitle then out +:+ subtitle +:+ PyStr.nl
           else out) out subtitles
  = out +:+ write_output subtitles.
Proof.
  unfold write_output. revert out.
  induction subtitles as [|s subtitles IH]; intros out; simpl.
  - by rewrite str_app_nil_r.
  - rewrite IH, (IH (if PyStr.truthy s then _ else _)).
    destruct (PyStr.truthy s); [|done].
    change ("" +:+ s +:+ PyStr.nl) with (s +:+ PyStr.nl).
    by rewrite !str_app_assoc.
Qed.

Lemma write_output_cons (s : string) (subtitles : list string) :
  write_output (s :: subtitles) =
  if PyStr.truthy s then s +:+ PyStr.nl +:+ write_output subtitles
  else write_output subtitles.
Proof.
  unfold write_output at 1. simpl. rewrite write_output_fold.
  destruct (PyStr.truthy s); [|done].
  change ("" +:+ s +:+ PyStr.nl) with (s +:+ PyStr.nl). by rewrite str_app_assoc.
Qed.

Lemma artifact_lines_go_line (cur s rest : string) :
  lf_free s →
  IO.artifact_lines_go cur (s +:+ PyStr.nl +:+ rest) =
  (cur +:+ s) :: IO.artifact_lines_go "" rest.
Proof.
  unfold lf_free. revert cur. induction s as [|c s IH]; intros cur Hs.
  - simpl. by rewrite str_app_nil_r.
  - simpl in Hs. apply andb_prop in Hs as [Hc Hs].
    rewrite str_app_cons. simpl.
    unfold not_lf in Hc. apply negb_true_iff in Hc. rewrite Hc.
    rewrite IH by done. by rewrite str_app_assoc.
Qed.

(** Reading the artifact back line by line gives the non-empty subtitles
    that were written. *)
Lemma artifact_lines_write_output (subtitles : list string) :
  Forall lf_free subtitles →
  IO.artifact_lines (write_output subtitles) =
  filter (fun s => PyStr.truthy s = true) subtitles.
Proof.
  unfold IO.artifact_lines.
  induction 1 as [|s subtitles Hs _ IH]; [done|].
  rewrite write_output_cons, filter_cons.
  destruct (PyStr.truthy s) eqn:Ht.
  - rewrite decide_True by done.
    rewrite artifact_lines_go_line by done. by rewrite IH.
  - rewrite decide_False by done. exact IH.
Qed.

Lemma unique_subtitles_lf_free (blocks : list (list string)) :
  Forall (Forall lf_free) blocks →
  Forall lf_free (unique_subtitles blocks).
Proof.
  intros H. apply Forall_forall. intros x Hx.
  unfold unique_subtitles in Hx.
  apply unique_from_elem in Hx as [Hx _].
  rewrite all_subtitles_concat in Hx.
  apply list_elem_of_In, in_concat in Hx as (b & Hb & Hxb).
  apply list_elem_of_In in Hb, Hxb.
  rewrite Forall_forall in H. specialize (H _ Hb).
  rewrite Forall_forall in H. by apply H.
Qed.

(** C3. The merged sequence has no repetition and holds exactly the strings
    of the flattened input; a string stands where its first occurrence puts
    it, right after the output for what precedes that occurrence, whatever
    follows; and the lines of the written artifact are the non-empty strings
    of the merged sequence, so no two of them are equal, for blocks without
    line feed, which the blocks of every parsed file are. *)
Theorem merger_dedup_first_occurrence (blocks : list (list string)) :
  let out := unique_subtitles blocks in
  NoDup out
  ∧ (∀ x, x ∈ out ↔ x ∈ concat blocks)
  ∧ (∀ pre x post,
       concat blocks = pre ++ x :: post → x ∉ pre →
       out !! length (unique_from ∅ pre) = Some x
       ∧ unique_from ∅ pre `prefix_of` out)
  ∧ (Forall (Forall lf_free) blocks →
       IO.artifact_lines (write_output out)
         = filter (fun s => PyStr.truthy s = true) out
       ∧ NoDup (IO.artifact_lines (write_output out)))
  ∧ (∀ srt_files : list srt_file,
       NoDup (IO.artifact_lines
                (write_output
                   (unique_subtitles (process_srt_file <$> srt_files))))).
Proof.
  intros out. unfold out, unique_subtitles. rewrite all_subtitles_concat.
  split; [apply unique_from_NoDup|].
  split; [intros x; rewrite unique_from_elem; set_solver|].
  split.
  { intros pre x post -> Hx. rewrite unique_from_first_occurrence by done.
    split; [|by eexists].
    by rewrite lookup_app_r, Nat.sub_diag by lia. }
  assert (Hlines : ∀ bs, Forall (Forall lf_free) bs →
            IO.artifact_lines (write_output (unique_from ∅ (concat bs)))
              = filter (fun s => PyStr.truthy s = true) (unique_from ∅ (concat bs))
            ∧ NoDup (IO.artifact_lines (write_output (unique_from ∅ (concat bs))))).
  { intros bs Hbs.
    assert (Hout := unique_subtitles_lf_free bs Hbs).
    unfold unique_subtitles in Hout. rewrite all_subtitles_concat in Hout.
    rewrite artifact_lines_write_output by done.
    split; [done|]. apply NoDup_filter, unique_from_NoDup. }
  split; [apply Hlines|].
  intros srt_files. rewrite all_subtitles_concat. apply Hlines.
  apply Forall_fmap, Forall_forall. intros f _. apply process_srt_file_lf_free.
Qed.

Lemma merger_dedup_first_occurrence_witness :
  unique_subtitles [["a"; "b"; "a"]; ["c"; "b"]; ["a"; "d"]] !! 2 = Some "c"
  ∧ IO.artifact_lines
      (write_output (unique_subtitles [["a"; "b"; "a"]; ["c"; "b"]; ["a"; "d"]]))
    = ["a"; "b"; "c"; "d"].
Proof.
  destruct (merger_dedup_first_occurrence
              [["a"; "b"; "a"]; ["c"; "b"]; ["a"; "d"]])
    as (_ & _ & Hpos & Hlines & _).
  split.
  - apply (Hpos ["a"; "b"; "a"] "c" ["b"; "a"; "d"]); [reflexivity|].
    rewrite !elem_of_cons, elem_of_nil. intros [|[|[|[]]]]; discriminate.
  - destruct Hlines as [-> _]; [|by vm_compute].
    repeat constructor.
Defined.

(** ** Counters and their ranking *)

Section counter_facts.
Context {A : Type} `{EqDecision A}.
Implicit Types (l : list A) (c : list (A * nat)).

Lemma occurrences_snoc (x y : A) l :
  occurrences x (l ++ [y]) =
  occurrences x l + (if decide (y = x) then 1 else 0).
Proof.
  unfold occurrences. rewrite filter_app, length_app. f_equal.
  rewrite filter_cons, filter_nil. by case_decide.
Qed.

Lemma occurrences_pos (x : A) l : x ∈ l → 0 < occurrences x l.
Proof.
  unfold occurrences. induction 1 as [x l|x y l _ IH].
  - rewrite filter_cons, decide_True by done. simpl. lia.
  - rewrite filter_cons. case_decide; simpl; lia.
Qed.

Lemma Counter_snoc l (x : A) :
  Collections.Counter (l ++ [x]) = Collections.incr x (Collections.Counter l).
Proof. unfold Collections.Counter. by rewrite foldl_snoc. Qed.

Lemma get_incr (k x : A) c :
  get k (Collections.incr x c) =
  if decide (k = x) then S (get k c) else get k c.
Proof.
  induction c as [|[k' n] c IH]; simpl.
  - by repeat case_decide.
  - destruct (decide (x = k')) as [->|Hx]; simpl;
      destruct (decide (k = k')) as [->|Hk]; simpl;
      rewrite ?IH; repeat case_decide; congruence.
Qed.

Lemma keys_incr (x : A) c :
  (Collections.incr x c).*1 =
  if decide (x ∈ c.*1) then c.*1 else c.*1 ++ [x].
Proof.
  induction c as [|[k' n] c IH]; [done|].
  cbn [Collections.incr]. destruct (decide (x = k')) as [->|Hk].
  - rewrite !fmap_cons. rewrite decide_True; [done|]. apply elem_of_cons. by left.
  - rewrite !fmap_cons, IH. cbn [fst].
    destruct (decide (x ∈ c.*1)) as [Hin|Hin].
    + rewrite decide_True; [done|]. apply elem_of_cons. by right.
    + rewrite decide_False; [done|]. rewrite elem_of_cons. naive_solver.
Qed.

Lemma sum_incr (x : A) c :
  sum_list (Collections.incr x c).*2 = S (sum_list c.*2).
Proof.
  induction c as [|[k' n] c IH]; [done|].
  cbn [Collections.incr]. case_decide; rewrite !fmap_cons; simpl; [done|].
  change (sum_list_with id ?l) with (sum_list l). rewrite IH. lia.
Qed.

Lemma positive_incr (x : A) c :
  Forall (fun e => 1 ≤ e.2) c →
  Forall (fun e => 1 ≤ e.2) (Collections.incr x c).
Proof.
  induction 1 as [|[k' n] c Hn Hc IH]; simpl.
  - repeat constructor.
  - case_decide; constructor; simpl in *; try done; lia.
Qed.

Lemma get_Counter (k : A) l : get k (Collections.Counter l) = occurrences k l.
Proof.
  induction l as [|x l IH] using rev_ind; [done|].
  rewrite Counter_snoc, get_incr, occurrences_snoc, IH.
  repeat case_decide; subst; try done; lia.
Qed.

Lemma keys_Counter_elem (k : A) l : k ∈ (Collections.Counter l).*1 ↔ k ∈ l.
Proof.
  revert k. induction l as [|x l IH] using rev_ind; intros k; [done|].
  rewrite Counter_snoc, keys_incr.
  destruct (decide (x ∈ (Collections.Counter l).*1)) as [Hx|Hx].
  - rewrite elem_of_app, list_elem_of_singleton, IH.
    apply IH in Hx. naive_solver.
  - by rewrite !elem_of_app, IH.
Qed.

Lemma keys_Counter_snoc l (x : A) :
  (Collections.Counter (l ++ [x])).*1 =
  if decide (x ∈ l) then (Collections.Counter l).*1
  else (Collections.Counter l).*1 ++ [x].
Proof.
  rewrite Counter_snoc, keys_incr.
  destruct (decide (x ∈ l)) as [Hx|Hx].
  - rewrite decide_True; [done|]. by apply keys_Counter_elem.
  - rewrite decide_False; [done|]. by rewrite keys_Counter_elem.
Qed.

Lemma keys_Counter_NoDup l : NoDup (Collections.Counter l).*1.
Proof.
  induction l as [|x l IH] using rev_ind; [constructor|].
  rewrite keys_Counter_snoc. case_decide as Hx; [done|].
  apply NoDup_app. split; [done|]. split; [|apply NoDup_singleton].
  intros y Hy ->%list_elem_of_singleton. by apply Hx, keys_Counter_elem.
Qed.

Lemma get_elem (k : A) (n : nat) c :
  NoDup c.*1 → (k, n) ∈ c → get k c = n.
Proof.
  induction c as [|[k' n'] c IH]; simpl.
  - by intros _ ?%elem_of_nil.
  - intros [Hk' Hc]%NoDup_cons [Heq|Hin]%elem_of_cons.
    + simplify_eq. by rewrite decide_True.
    + rewrite decide_False; [by apply IH|].
      intros ->. apply Hk'. apply list_elem_of_fmap. by exists (k', n).
Qed.

(** The entries of a counter: every element once, with its number of
    occurrences. *)
Lemma Counter_entry (k : A) (n : nat) l :
  (k, n) ∈ Collections.Counter l ↔ k ∈ l ∧ n = occurrences k l.
Proof.
  split.
  - intros Hin. split.
    + apply keys_Counter_elem, list_elem_of_fmap. by exists (k, n).
    + rewrite <- get_Counter. symmetry.
      by apply get_elem; [apply keys_Counter_NoDup|].
  - intros [Hk ->].
    apply keys_Counter_elem, list_elem_of_fmap in Hk as ([k' n'] & -> & Hin).
    simpl. replace (occurrences k' l) with n'; [done|].
    rewrite <- get_Counter. symmetry.
    by apply get_elem; [apply keys_Counter_NoDup|].
Qed.

Lemma sum_Counter l : sum_list (Collections.Counter l).*2 = length l.
Proof.
  induction l as [|x l IH] using rev_ind; [done|].
  rewrite Counter_snoc, sum_incr, IH, length_app. simpl. lia.
Qed.

Lemma positive_Counter l : Forall (fun e => 1 ≤ e.2) (Collections.Counter l).
Proof.
  induction l as [|x l IH] using rev_ind; [constructor|].
  rewrite Counter_snoc. by apply positive_incr.
Qed.

Lemma first_index_lt (x : A) l : x ∈ l → first_index x l < length l.
Proof.
  induction 1 as [x l|x y l _ IH]; simpl.
  - rewrite decide_True by done. lia.
  - case_decide; lia.
Qed.

Lemma first_index_not_elem (x : A) l : x ∉ l → first_index x l = length l.
Proof.
  induction l as [|y l IH]; simpl; [done|].
  intros [Hxy Hx]%not_elem_of_cons. rewrite decide_False by done.
  by rewrite IH.
Qed.

Lemma first_index_app_l (x : A) l k :
  x ∈ l → first_index x (l ++ k) = first_index x l.
Proof.
  induction 1 as [x l|x y l _ IH]; simpl.
  - by rewrite !decide_True.
  - case_decide; [done|]. by rewrite IH.
Qed.

Lemma first_index_snoc_new (x : A) l :
  x ∉ l → first_index x (l ++ [x]) = length l.
Proof.
  induction l as [|y l IH]; simpl.
  - intros _. by rewrite decide_True.
  - intros [Hxy Hx]%not_elem_of_cons. rewrite decide_False by done.
    by rewrite IH.
Qed.

(** A counter keeps its keys in the order of their first occurrence. *)
Lemma keys_Counter_sorted l :
  StronglySorted (fun a b => first_index a l < first_index b l)
                 (Collections.Counter l).*1.
Proof.
  induction l as [|x l IH] using rev_ind; [constructor|].
  assert (Hold : StronglySorted
            (fun a b => first_index a (l ++ [x]) < first_index b (l ++ [x]))
            (Collections.Counter l).*1).
  { assert (Hel : ∀ k, k ∈ (Collections.Counter l).*1 → k ∈ l)
      by (intros k; apply keys_Counter_elem).
    revert IH Hel. generalize ((Collections.Counter l).*1). intros ks.
    induction 1 as [|a ks Hks IH' Ha]; intros Hel; constructor.
    - apply IH'. intros k Hk. apply Hel. by right.
    - rewrite Forall_forall in Ha. apply Forall_forall. intros b Hb.
      rewrite (first_index_app_l a), (first_index_app_l b).
      + by apply Ha.
      + apply Hel. by right.
      + apply Hel. by left. }
  rewrite keys_Counter_snoc. case_decide as Hx; [done|].
  apply StronglySorted_app_2; [|done|repeat constructor].
  intros a b Ha ->%list_elem_of_singleton.
  apply (proj1 (keys_Counter_elem a l)) in Ha.
  rewrite (first_index_app_l a), (first_index_snoc_new x) by done.
  by apply first_index_lt.
Qed.

Lemma rank_insert_perm (x : A * nat) c :
  Collections.rank_insert x c ≡ₚ x :: c.
Proof.
  induction c as [|y c IH]; simpl; [done|].
  case_decide; [|done]. by rewrite IH, Permutation_swap.
Qed.

Lemma rank_perm c : Collections.rank c ≡ₚ c.
Proof.
  induction c as [|x c IH]; simpl; [done|].
  by rewrite rank_insert_perm, IH.
Qed.

Lemma rank_insert_sorted l (x : A * nat) c :
  Forall (fun y => first_index x.1 l < first_index y.1 l) c →
  StronglySorted (ranks_before l) c →
  StronglySorted (ranks_before l) (Collections.rank_insert x c).
Proof.
  intros Hx Hc. induction Hc as [|y c Hc IH Hy]; simpl.
  - repeat constructor.
  - apply Forall_cons in Hx as [Hxy Hx]. case_decide as Hlt.
    + constructor; [by apply IH|].
      rewrite rank_insert_perm. constructor; [|done]. left. done.
    + constructor; [by constructor|].
      constructor; [unfold ranks_before; lia|].
      rewrite Forall_forall in Hx, Hy. apply Forall_forall. intros z Hz.
      specialize (Hx z Hz). specialize (Hy z Hz).
      unfold ranks_before in *. lia.
Qed.

(** Ranking is a stable sort: decreasing counts, and the order of first
    occurrence among equal counts. *)
Lemma rank_Counter_sorted l :
  StronglySorted (ranks_before l) (Collections.rank (Collections.Counter l)).
Proof.
  pose proof (keys_Counter_sorted l) as Hs.
  revert Hs. generalize (Collections.Counter l). intros c.
  induction c as [|x c IH]; simpl; [constructor|].
  intros [Hx Hc]%StronglySorted_cons.
  apply rank_insert_sorted; [|by apply IH].
  rewrite rank_perm. rewrite Forall_forall in Hx. apply Forall_forall.
  intros y Hy. apply Hx. change (y.1 ∈ c.*1).
  apply list_elem_of_fmap. by exists y.
Qed.

End counter_facts.

(** ** The frequency table and the sentence-length distribution *)

Lemma most_common_split {A : Type} `{EqDecision A} (c : list (A * nat)) (n : Z) :
  Collections.rank c =
  Collections.most_common c n ++ drop (Z.to_nat n) (Collections.rank c).
Proof. unfold Collections.most_common. by rewrite take_drop. Qed.

Lemma rank_Counter_keys_NoDup {A : Type} `{EqDecision A} (l : list A) :
  NoDup (Collections.rank (Collections.Counter l)).*1.
Proof. rewrite rank_perm. apply keys_Counter_NoDup. Qed.

Lemma distinct_keys_Counter (l : list string) :
  length (Collections.Counter l) = size (list_to_set l : gset string).
Proof.
  rewrite <- (length_fmap fst).
  rewrite <- (size_list_to_set (C:=gset string)) by apply keys_Counter_NoDup.
  f_equal. apply set_eq. intros k.
  by rewrite !elem_of_list_to_set, keys_Counter_elem.
Qed.

(** C7. The table [word_frequency] returns holds distinct words, each with
    its number of occurrences; it is ordered by decreasing count and, among
    equal counts, by first appearance in the token sequence; it is the first
    [top_n] entries of that ranking of all the distinct words (none for a
    negative [top_n]), so every word left out ranks after every word listed.
    The default of [top_n] is 20 and the report is built from the table for
    10. *)
Theorem word_frequency_ranking (text : string) (top_n : Z) :
  let self := __init__ text in
  let table := word_frequency self top_n in
  NoDup table.*1
  ∧ (∀ w n, (w, n) ∈ table →
       w ∈ words self ∧ n = occurrences w (words self) ∧ 1 ≤ n)
  ∧ StronglySorted (ranks_before (words self)) table
  ∧ length table =
      Nat.min (Z.to_nat top_n) (size (list_to_set (words self) : gset string))
  ∧ (∀ w e, w ∈ words self → w ∉ table.*1 → e ∈ table →
       ranks_before (words self) e (w, occurrences w (words self)))
  ∧ default_top_n = 20%Z
  ∧ length (word_frequency self 10) ≤ 10
  ∧ ∃ st, basic_stats self = inr st
          ∧ generate_report self =
              inr (PyStr.join PyStr.nl
                     (report_lines st (word_frequency self 10)
                        (sentence_length_distribution self))).
Proof.
  intros self table. unfold table, word_frequency.
  set (ws := words self). set (c := Collections.Counter ws).
  pose proof (most_common_split c top_n) as Hsplit.
  pose proof (rank_Counter_sorted ws) as Hsorted. fold c in Hsorted.
  assert (Hin : ∀ e, e ∈ Collections.most_common c top_n → e ∈ c).
  { intros e He. rewrite <- (rank_perm c), Hsplit. apply elem_of_app. by left. }
  split.
  { unfold Collections.most_common. rewrite fmap_take.
    eapply sublist_NoDup; [apply rank_Counter_keys_NoDup|apply sublist_take]. }
  split.
  { intros w n Hwn. apply Hin, Counter_entry in Hwn as [Hw ->].
    repeat split; [done|]. by apply occurrences_pos. }
  split.
  { rewrite Hsplit in Hsorted. by apply StronglySorted_app_1_l in Hsorted. }
  split.
  { unfold Collections.most_common.
    rewrite length_take, rank_perm. unfold c.
    by rewrite distinct_keys_Counter. }
  split.
  { intros w e Hw Hout He.
    assert (Hentry : (w, occurrences w ws) ∈ Collections.rank c).
    { rewrite rank_perm. by apply Counter_entry. }
    rewrite Hsplit in Hentry, Hsorted.
    apply elem_of_app in Hentry as [Hentry|Hentry].
    - destruct Hout. apply list_elem_of_fmap. by eexists (_, _).
    - by eapply StronglySorted_app_1_elem_of. }
  split; [done|]. split.
  { unfold Collections.most_common. rewrite length_take. lia. }
  destruct (basic_stats_total self) as [st Hst]. exists st. split; [done|].
  unfold generate_report. by rewrite Hst.
Qed.

(** C10. The sentence-length distribution agrees with the basic statistics:
    its counts add up to [total_sentences], each count is at least 1, and
    its keys are, without repetition, the word counts of the sentences; the
    count of a key is the number of sentences with that many words. *)
Theorem sentence_length_distribution_consistent (text : string) :
  let self := __init__ text in
  let dist := sentence_length_distribution self in
  let lengths := (fun s => length (PyRe.findall_words s)) <$> sentences self in
  ∃ st, basic_stats self = inr st
        ∧ sum_list dist.*2 = total_sentences st
        ∧ Forall (fun e => 1 ≤ e.2) dist
        ∧ NoDup dist.*1
        ∧ (∀ k, k ∈ dist.*1 ↔ k ∈ lengths)
        ∧ (∀ k n, (k, n) ∈ dist ↔ k ∈ lengths ∧ n = occurrences k lengths).
Proof.
  intros self dist lengths.
  destruct (basic_stats_total self) as [st Hst]. exists st. split; [done|].
  assert (Htotal : total_sentences st = length (sentences self)).
  { unfold basic_stats in Hst. rewrite ttr_total in Hst.
    simpl in Hst. by injection Hst as <-. }
  unfold dist, sentence_length_distribution. fold lengths.
  change (sentence_lengths self) with lengths.
  split; [rewrite sum_Counter, Htotal; unfold lengths; by rewrite length_fmap|].
  split; [apply positive_Counter|].
  split; [apply keys_Counter_NoDup|].
  split; [intros k; apply keys_Counter_elem|].
  intros k n. apply Counter_entry.
Qed.

Lemma word_frequency_ranking_witness :
  ranks_before (words (__init__ "Cats run. Dogs run fast! Cats run."))
    ("run", 3)
    ("dogs", occurrences "dogs"
               (words (__init__ "Cats run. Dogs run fast! Cats run."))).
Proof.
  destruct (word_frequency_ranking "Cats run. Dogs run fast! Cats run." 2)
    as (_ & _ & _ & _ & Hout & _).
  apply Hout.
  - refine (bool_decide_unpack _ _). vm_compute. exact I.
  - refine (bool_decide_unpack _ _). vm_compute. exact I.
  - refine (bool_decide_unpack _ _). vm_compute. exact I.
Defined.

(** ** Markup stripping *)

Lemma match_tag_other (c : ascii) (r : string) :
  not_lt c = true → PyRe.match_tag (String c r) = None.
Proof.
  unfold not_lt. intros Hc%negb_true_iff%bool_decide_eq_false.
  destruct c as [[] [] [] [] [] [] [] []]; try done.
Qed.

Lemma tag_body_none (s : string) :
  str_all not_gt s = true → PyRe.tag_body s = None.
Proof.
  induction s as [|c s IH]; [done|]. simpl.
  intros [Hc Hs]%andb_prop. unfold not_gt in Hc.
  apply negb_true_iff in Hc. by rewrite Hc, IH.
Qed.

Lemma tag_body_closed (body rest : string) :
  str_all not_gt body = true →
  PyRe.tag_body (body +:+ ">" +:+ rest) = Some (S (String.length body)).
Proof.
  induction body as [|c body IH]; [done|]. rewrite str_app_cons. simpl.
  intros [Hc Hs]%andb_prop. unfold not_gt in Hc.
  apply negb_true_iff in Hc. by rewrite Hc, IH.
Qed.

Lemma match_tag_none (s : string) :
  str_all not_gt s = true → PyRe.match_tag s = None.
Proof.
  destruct s as [|c [|c' r]]; [done| |].
  - by destruct c as [[] [] [] [] [] [] [] []].
  - simpl str_all. intros [_ [_ Hr]%andb_prop]%andb_prop.
    destruct (bool_decide (c = "<"%char)) eqn:Hc.
    + apply bool_decide_eq_true in Hc as ->. cbn [PyRe.match_tag].
      rewrite tag_body_none by done. by case_bool_decide.
    + apply match_tag_other. unfold not_lt. by rewrite Hc.
Qed.

Lemma sub_go_skip (s t : string) :
  PyRe.sub_go (String.length s) (s +:+ t) = PyRe.sub_go 0 t.
Proof. induction s as [|c s IH]; [done|]. rewrite str_app_cons. exact IH. Qed.

Lemma sub_go_copy (a t : string) :
  str_all not_lt a = true →
  PyRe.sub_go 0 (a +:+ t) = a +:+ PyRe.sub_go 0 t.
Proof.
  induction a as [|c a IH]; [done|]. rewrite !str_app_cons.
  simpl str_all. intros [Hc Ha]%andb_prop.
  cbn [PyRe.sub_go]. by rewrite match_tag_other, IH.
Qed.

Lemma str_length_app (s t : string) :
  String.length (s +:+ t) = String.length s + String.length t.
Proof. induction s as [|c s IH]; [done|]. rewrite str_app_cons. simpl. by rewrite IH. Qed.

Lemma sub_go_no_gt (s : string) :
  str_all not_gt s = true → PyRe.sub_go 0 s = s.
Proof.
  induction s as [|c s IH]; [done|]. intros Hs.
  cbn [PyRe.sub_go]. rewrite match_tag_none by done.
  simpl in Hs. apply andb_prop in Hs as [_ Hs]. by rewrite IH.
Qed.

Lemma sub_go_tag (body rest : string) :
  str_all not_gt body = true → body ≠ "" →
  PyRe.sub_go 0 ("<" +:+ body +:+ ">" +:+ rest) = PyRe.sub_go 0 rest.
Proof.
  destruct body as [|c body]; [done|]. intros Hb _.
  simpl in Hb. apply andb_prop in Hb as [Hc Hb].
  unfold not_gt in Hc. apply negb_true_iff in Hc.
  change ("<" +:+ String c body +:+ ">" +:+ rest)
    with (String "<" (String c (body +:+ ">" +:+ rest))).
  cbn [PyRe.sub_go PyRe.match_tag]. rewrite Hc, tag_body_closed by done.
  cbn [fmap option_fmap option_map pred].
  rewrite <- (sub_go_skip (body +:+ ">") rest).
  rewrite str_length_app, str_app_assoc. simpl String.length.
  by replace (String.length body + 1) with (S (String.length body)) by lia.
Qed.

(** C8 as stated fails on ["a<>b"]: ["<>"] is a span from a ['<'] up to
    the next ['>'], and it is kept, since the pattern asks for at least one
    character between the two. *)
Lemma empty_tag_is_kept :
  remove_spans "a<>b" = "ab"
  ∧ PyRe.sub_tags "a<>b" = "a<>b"
  ∧ clean_subtitle_text "a<>b" = "a<>b"
  ∧ PyRe.sub_tags "a<>b" ≠ remove_spans "a<>b".
Proof. repeat split; [vm_compute; reflexivity..|by vm_compute]. Qed.

(** C8 (amended). Scanning from the left, a span from a ['<'] up to the
    next ['>'] with at least one character between them is removed; the
    empty span ["<>"] is kept; a ['<'] that no ['>'] follows and a ['>']
    that no ['<'] precedes are left as they are; and the line
    ["<i>Hello</i> world"] normalises to ["Hello world"]. *)
Theorem markup_stripping (a body b : string) :
  str_all not_lt a = true →
  str_all not_gt body = true →
  body ≠ "" →
  PyRe.sub_tags (a +:+ "<" +:+ body +:+ ">" +:+ b) = a +:+ PyRe.sub_tags b
  ∧ PyRe.sub_tags (a +:+ "<>" +:+ b) = a +:+ "<>" +:+ PyRe.sub_tags b
  ∧ PyRe.sub_tags (a +:+ "<" +:+ body) = a +:+ "<" +:+ body
  ∧ PyRe.sub_tags a = a
  ∧ clean_subtitle_text "<i>Hello</i> world" = "Hello world".
Proof.
  intros Ha Hbody Hne. unfold PyRe.sub_tags.
  split; [by rewrite sub_go_copy, sub_go_tag|].
  split.
  { by rewrite sub_go_copy. }
  split.
  { rewrite sub_go_copy by done. f_equal. by apply sub_go_no_gt. }
  split; [|by vm_compute].
  rewrite <- (str_app_nil_r a) at 1. rewrite sub_go_copy by done.
  by rewrite str_app_nil_r.
Qed.

Lemma markup_stripping_witness :
  PyRe.sub_tags "x > y <i>Hello" = "x > y Hello".
Proof.
  refine (proj1 (markup_stripping "x > y " "i" "Hello" _ _ _)).
  - reflexivity.
  - reflexivity.
  - discriminate.
Defined.

(** * Further properties of the parser *)

Lemma loop_body_idle (st : locals) (l : string) :
  idle st → ¬ is_timing_line l → loop_body st l = st.
Proof.
  intros [Hcur Hin] Hl. unfold is_timing_line in Hl.
  apply not_true_is_false in Hl.
  destruct st as [texts cur inside]. simpl in *. subst.
  unfold loop_body. simpl. rewrite Hl.
  by destruct (PyStr.truthy _), (PyStr.isdigit _).
Qed.

Lemma run_idle (st : locals) (lines : list string) :
  idle st → Forall (fun l => ¬ is_timing_line l) lines → run st lines = st.
Proof.
  intros Hst. induction 1 as [|l lines Hl _ IH]; [done|].
  simpl. by rewrite loop_body_idle.
Qed.

Lemma loop_body_blank_idle (st : locals) (l : string) :
  is_blank_line l → idle (loop_body st l).
Proof. intros Hl. by rewrite loop_body_blank. Qed.

Lemma loop_body_inside (st : locals) (l : string) :
  in_subtitle_text st = true → ¬ is_blank_line l →
  in_subtitle_text (loop_body st l) = true.
Proof.
  intros Hin Hl. unfold is_blank_line in Hl. unfold loop_body.
  destruct (PyStr.strip l) eqn:Hs; [done|]. simpl.
  by repeat (match goal with |- context [if ?b then _ else _] => destruct b end).
Qed.

Lemma run_inside (st : locals) (lines : list string) :
  in_subtitle_text st = true →
  Forall (fun l => ¬ is_blank_line l) lines →
  in_subtitle_text (run st lines) = true.
Proof.
  intros Hin Hl. revert st Hin.
  induction Hl as [|l lines Hl _ IH]; intros st Hin; [done|].
  simpl. apply IH. by apply loop_body_inside.
Qed.

Lemma loop_body_timing_inside (st : locals) (l : string) :
  in_subtitle_text st = true → is_timing_line l → loop_body st l = st.
Proof.
  intros Hin Hl. rewrite loop_body_timing by done.
  destruct st. simpl in *. by subst.
Qed.

(** X1. A line that holds only digits is skipped wherever it stands, also
    among the text lines of a block: the file yields the same blocks with
    and without it. *)
Theorem index_lines_are_skipped (before after : list string) (index : string) :
  is_index_line index →
  process_srt_file (Line <$> (before ++ index :: after)) =
  process_srt_file (Line <$> (before ++ after)).
Proof.
  intros Hidx. rewrite !process_srt_file_lines, !run_app. simpl.
  by rewrite loop_body_index.
Qed.

Lemma index_lines_are_skipped_witness :
  process_srt_file (Line <$> ["0 --> 1"; "Born in"; "1984"; "in Oslo"]) =
  process_srt_file (Line <$> ["0 --> 1"; "Born in"; "in Oslo"]).
Proof.
  apply (index_lines_are_skipped ["0 --> 1"; "Born in"] ["in Oslo"] "1984").
  reflexivity.
Defined.

(** X2. A blank line right after a blank line changes nothing. *)
Theorem repeated_blank_lines (before after : list string) (blank blank' : string) :
  is_blank_line blank → is_blank_line blank' →
  process_srt_file (Line <$> (before ++ blank :: blank' :: after)) =
  process_srt_file (Line <$> (before ++ blank :: after)).
Proof.
  intros Hb Hb'. rewrite !process_srt_file_lines, !run_app. simpl.
  by rewrite (loop_body_blank _ blank'), !(loop_body_blank _ blank).
Qed.

Lemma repeated_blank_lines_witness :
  process_srt_file (Line <$> ["0 --> 1"; "a"; ""; "  "; "1 --> 2"; "b"]) =
  process_srt_file (Line <$> ["0 --> 1"; "a"; ""; "1 --> 2"; "b"]).
Proof.
  apply (repeated_blank_lines ["0 --> 1"; "a"] ["1 --> 2"; "b"] "" "  ");
    reflexivity.
Defined.

(** X3. Text outside a block is dropped: a file without any timing line
    yields no block, and lines without timing marker that follow a blank
    line can be removed without changing the result. *)
Theorem text_outside_blocks_is_dropped
    (before stray after : list string) (blank : string) :
  is_blank_line blank →
  Forall (fun l => ¬ is_timing_line l) stray →
  process_srt_file (Line <$> stray) = []
  ∧ process_srt_file (Line <$> (before ++ blank :: stray ++ after)) =
    process_srt_file (Line <$> (before ++ blank :: after)).
Proof.
  intros Hb Hstray. split.
  - rewrite process_srt_file_lines, run_idle; done.
  - rewrite !process_srt_file_lines, !run_app. simpl. rewrite run_app.
    rewrite (run_idle _ stray); [done| |done]. by apply loop_body_blank_idle.
Qed.

Lemma text_outside_blocks_is_dropped_witness :
  process_srt_file (Line <$> ["stray"; "7"; ""]) = []
  ∧ process_srt_file
      (Line <$> (["0 --> 1"; "a"] ++ "" :: ["stray"; "7"; ""] ++ ["1 --> 2"; "b"])) =
    process_srt_file (Line <$> (["0 --> 1"; "a"] ++ "" :: ["1 --> 2"; "b"])).
Proof.
  apply (text_outside_blocks_is_dropped
           ["0 --> 1"; "a"] ["stray"; "7"; ""] ["1 --> 2"; "b"] "").
  - reflexivity.
  - repeat constructor; by vm_compute.
Defined.

(** X4. Inside a block a further timing line has no effect: without a
    blank line in between, the text lines after it join the same block. *)
Theorem timing_line_inside_block
    (before body after : list string) (timing timing' : string) :
  is_timing_line timing → is_timing_line timing' →
  Forall (fun l => ¬ is_blank_line l) body →
  process_srt_file (Line <$> (before ++ timing :: body ++ timing' :: after)) =
  process_srt_file (Line <$> (before ++ timing :: body ++ after)).
Proof.
  intros Ht Ht' Hbody. rewrite !process_srt_file_lines, !run_app. simpl.
  rewrite !run_app. simpl. rewrite (loop_body_timing_inside _ timing'); [done| |done].
  apply run_inside; [|done]. by rewrite loop_body_timing.
Qed.

Lemma timing_line_inside_block_witness :
  process_srt_file (Line <$> ([] ++ "0 --> 1" :: ["a"] ++ "1 --> 2" :: ["b"])) =
  process_srt_file (Line <$> ([] ++ "0 --> 1" :: ["a"] ++ ["b"])).
Proof.
  apply (timing_line_inside_block [] ["a"] ["b"] "0 --> 1" "1 --> 2").
  - reflexivity.
  - reflexivity.
  - repeat constructor; by vm_compute.
Defined.

Lemma flush_length (texts current : list string) :
  length (flush texts current) ≤
  length texts + (if bool_decide (current = []) then 0 else 1).
Proof.
  unfold flush. destruct current; [simpl; lia|].
  rewrite bool_decide_eq_false_2 by done.
  destruct (PyStr.truthy _); rewrite ?length_app; simpl; lia.
Qed.

Lemma timing_count_cons (l : string) (lines : list string) :
  timing_count (l :: lines) =
  (if decide (PyStr.contains "-->" (PyStr.strip l) = true) then 1 else 0)
  + timing_count lines.
Proof. unfold timing_count. rewrite filter_cons. by case_decide. Qed.

(** The invariant behind the bound: the blocks found, plus one if a block
    is open, never outnumber the timing lines read; and text is pending
    only inside a block. *)
Lemma run_budget (lines : list string) (st : locals) (n : nat) :
  length (subtitle_texts st) + (if in_subtitle_text st then 1 else 0) ≤ n →
  (current_text st ≠ [] → in_subtitle_text st = true) →
  length (subtitle_texts (run st lines))
    + (if in_subtitle_text (run st lines) then 1 else 0)
    ≤ n + timing_count lines
  ∧ (current_text (run st lines) ≠ [] → in_subtitle_text (run st lines) = true).
Proof.
  revert st n. induction lines as [|l lines IH]; intros st n Hn Hcur.
  { unfold timing_count. simpl. split; [lia|done]. }
  change (run st (l :: lines)) with (run (loop_body st l) lines).
  rewrite timing_count_cons.
  destruct (decide (PyStr.contains "-->" (PyStr.strip l) = true)) as [Ht|Ht].
  - rewrite loop_body_timing by done.
    replace (n + (1 + timing_count lines)) with (S n + timing_count lines) by lia.
    apply IH; simpl; [destruct (in_subtitle_text st); lia|done].
  - rewrite Nat.add_0_l. apply IH.
    + unfold loop_body.
      destruct (PyStr.truthy (PyStr.strip l)); simpl.
      * apply not_true_is_false in Ht. rewrite Ht.
        by destruct (PyStr.isdigit _), (in_subtitle_text st) eqn:Hin;
          simpl; rewrite ?Hin.
      * pose proof (flush_length (subtitle_texts st) (current_text st)) as Hf.
        case_bool_decide as Hc; [lia|].
        rewrite (Hcur Hc) in Hn. lia.
    + unfold loop_body.
      destruct (PyStr.truthy (PyStr.strip l)); simpl; [|done].
      apply not_true_is_false in Ht. rewrite Ht.
      destruct (PyStr.isdigit _); [done|].
      destruct (in_subtitle_text st) eqn:Hin; simpl; [done|].
      rewrite ?Hin. exact Hcur.
Qed.

Lemma read_loop_ok_lines (f : srt_file) (st st' : locals) :
  read_loop st f = inr st' → f = Line <$> lines_read f.
Proof.
  revert st. induction f as [|[l|e] f IH]; intros st; simpl; [done| |done].
  intros Hf. f_equal. by eapply IH.
Qed.

(** X5. A file never yields more blocks than it has timing lines. *)
Theorem blocks_bounded_by_timing_lines (f : srt_file) :
  length (process_srt_file f) ≤ timing_count (lines_read f).
Proof.
  unfold process_srt_file.
  destruct (read_loop initial f) as [e|st] eqn:Hf; [simpl; lia|].
  pose proof (read_loop_ok_lines _ _ _ Hf) as Hlines.
  rewrite Hlines, read_loop_lines in Hf. injection Hf as <-.
  destruct (run_budget (lines_read f) initial 0) as [Hn Hcur]; [done..|].
  pose proof (flush_length (subtitle_texts (run initial (lines_read f)))
                           (current_text (run initial (lines_read f)))) as Hfl.
  case_bool_decide as Hc; [lia|].
  rewrite (Hcur Hc) in Hn. lia.
Qed.

(** * Further properties of the merger *)

Lemma unique_from_filter (s1 s2 : gset string) (l : list string) :
  unique_from (s1 ∪ s2) l = filter (fun x => x ∉ s1) (unique_from s2 l).
Proof.
  revert s2. induction l as [|x l IH]; intros s2; [done|]. simpl.
  destruct (decide (x ∈ s2)) as [H2|H2].
  - rewrite decide_True by set_solver. apply IH.
  - rewrite filter_cons. destruct (decide (x ∈ s1)) as [H1|H1].
    + rewrite decide_True by set_solver. rewrite decide_False by auto.
      rewrite <- IH. f_equal. set_solver.
    + rewrite decide_False by set_solver. rewrite decide_True by done.
      f_equal. rewrite <- IH. f_equal. set_solver.
Qed.

Lemma unique_from_NoDup_id (seen : gset string) (l : list string) :
  NoDup l → (∀ x, x ∈ l → x ∉ seen) → unique_from seen l = l.
Proof.
  intros Hl. revert seen. induction Hl as [|x l Hx Hl IH]; intros seen Hseen.
  - done.
  - simpl. rewrite decide_False by (apply Hseen; by left). f_equal.
    apply IH. intros y Hy. specialize (Hseen y (list_elem_of_further _ _ _ Hy)).
    set_solver.
Qed.

(** X6. Merging is idempotent: a sequence without repetition is returned
    as it is, so merging the merged output once more changes nothing. *)
Theorem merging_is_idempotent (blocks : list (list string)) (l : list string) :
  (NoDup l → unique_subtitles [l] = l)
  ∧ unique_subtitles [unique_subtitles blocks] = unique_subtitles blocks.
Proof.
  assert (Hid : ∀ k, NoDup k → unique_subtitles [k] = k).
  { intros k Hk. unfold unique_subtitles. rewrite all_subtitles_concat. simpl.
    rewrite app_nil_r. apply unique_from_NoDup_id; [done|set_solver]. }
  split; [apply Hid|]. apply Hid. apply unique_from_NoDup.
Qed.

Lemma merging_is_idempotent_witness :
  unique_subtitles [["b"; "a"; "c"]] = ["b"; "a"; "c"].
Proof.
  apply (merging_is_idempotent [] ["b"; "a"; "c"]).
  refine (bool_decide_unpack _ _). vm_compute. exact I.
Defined.

(** X7. Merging two batches of files: the output for the first batch comes
    first, followed by the output for the second batch without the strings
    that occur in the first. *)
Theorem merging_in_batches (batch1 batch2 : list (list string)) :
  unique_subtitles (batch1 ++ batch2) =
  unique_subtitles batch1
  ++ filter (fun x => x ∉ concat batch1) (unique_subtitles batch2).
Proof.
  unfold unique_subtitles. rewrite !all_subtitles_concat, concat_app.
  rewrite unique_from_app. f_equal. rewrite unique_from_filter.
  apply list_filter_iff. intros x. by rewrite elem_of_list_to_set.
Qed.

(** X8. The merged output has one entry for each distinct string of the
    input, so it is never longer than the input. *)
Theorem merged_length (blocks : list (list string)) :
  length (unique_subtitles blocks) = size (list_to_set (concat blocks) : gset string)
  ∧ length (unique_subtitles blocks) ≤ length (concat blocks).
Proof.
  unfold unique_subtitles. rewrite all_subtitles_concat.
  assert (Hlen : length (unique_from ∅ (concat blocks)) =
                 size (list_to_set (concat blocks) : gset string)).
  { rewrite <- (size_list_to_set (C:=gset string)) by apply unique_from_NoDup.
    f_equal. apply set_eq. intros x.
    rewrite !elem_of_list_to_set, unique_from_elem. set_solver. }
  split; [done|]. rewrite Hlen.
  generalize (concat blocks). intros l. induction l as [|x l IH]; [done|].
  simpl. destruct (decide (x ∈ (list_to_set l : gset string))) as [Hx|Hx].
  - replace ({[x]} ∪ list_to_set l) with (list_to_set l : gset string)
      by set_solver. lia.
  - rewrite size_union by set_solver. rewrite size_singleton. lia.
Qed.

(** * Further properties of the normaliser *)

Lemma split_go_words (cur : option string) (s : string) :
  from_option is_word_of_text True cur →
  Forall is_word_of_text (PyStr.split_go cur s).
Proof.
  revert cur. induction s as [|c s IH]; intros cur Hcur; simpl.
  - destruct cur as [w|]; constructor; [exact Hcur|constructor].
  - destruct (PyStr.isspace c) eqn:Hc.
    + destruct cur as [w|]; [constructor; [exact Hcur|]|]; by apply IH.
    + apply IH. simpl. split.
      * by destruct cur as [[|??]|].
      * rewrite str_all_app. simpl str_all at 2. unfold not_space at 2.
        rewrite Hc. simpl negb. rewrite andb_true_r.
        destruct cur as [w|]; [|done]. by destruct Hcur as [_ ?].
Qed.

Lemma split_go_append (u w s : string) :
  str_all not_space w = true →
  PyStr.split_go (Some u) (w +:+ s) = PyStr.split_go (Some (u +:+ w)) s.
Proof.
  revert u. induction w as [|c w IH]; intros u Hw.
  - by rewrite str_app_nil_r.
  - simpl in Hw. apply andb_prop in Hw as [Hc Hw].
    rewrite str_app_cons. simpl. unfold not_space in Hc.
    apply negb_true_iff in Hc. rewrite Hc, IH by done.
    by rewrite str_app_assoc.
Qed.

Lemma split_go_word (w s : string) :
  is_word_of_text w →
  PyStr.split_go None (w +:+ s) = PyStr.split_go (Some w) s.
Proof.
  intros [Hne Hw]. destruct w as [|c w]; [done|].
  simpl in Hw. apply andb_prop in Hw as [Hc Hw].
  rewrite str_app_cons. simpl. unfold not_space in Hc.
  apply negb_true_iff in Hc. rewrite Hc. simpl.
  by rewrite split_go_append.
Qed.

(** Splitting what was joined gives the words back. *)
Lemma split_join (ws : list string) :
  Forall is_word_of_text ws → PyStr.split (PyStr.join " " ws) = ws.
Proof.
  unfold PyStr.split. induction 1 as [|w ws Hw Hws IH]; [done|].
  destruct ws as [|w' ws].
  - simpl. rewrite <- (str_app_nil_r w) at 1. by rewrite split_go_word.
  - change (PyStr.join " " (w :: w' :: ws))
      with (w +:+ String " " (PyStr.join " " (w' :: ws))).
    rewrite split_go_word by done.
    remember (PyStr.join " " (w' :: ws)) as rest. simpl. by rewrite IH.
Qed.

Lemma lstrip_unblank (s : string) :
  match s with "" => True | String c _ => not_space c = true end →
  PyStr.lstrip s = s.
Proof.
  destruct s as [|c s]; [done|]. simpl. unfold not_space.
  intros Hc%negb_true_iff. by rewrite Hc.
Qed.

Lemma rstrip_unblank (s : string) :
  ends_unblank s = true → PyStr.rstrip s = s.
Proof.
  induction s as [|c s IH]; [done|]. simpl.
  destruct s as [|c' s].
  - simpl. unfold not_space. intros Hc%negb_true_iff. by rewrite Hc.
  - intros Hs. rewrite (IH Hs). done.
Qed.

Lemma ends_unblank_app (a b : string) :
  b ≠ "" → ends_unblank b = true → ends_unblank (a +:+ b) = true.
Proof.
  intros Hne Hb. induction a as [|c a IH]; [done|].
  rewrite str_app_cons. simpl.
  destruct (a +:+ b) eqn:Hab; [|done].
  destruct a; [|done]. by destruct b.
Qed.

Lemma ends_unblank_word (w : string) :
  str_all not_space w = true → ends_unblank w = true.
Proof.
  induction w as [|c w IH]; [done|]. simpl.
  intros [Hc Hw]%andb_prop. destruct w; [done|]. by apply IH.
Qed.

Lemma join_nonempty (ws : list string) :
  Forall is_word_of_text ws → ws ≠ [] → PyStr.join " " ws ≠ "".
Proof.
  destruct 1 as [|w ws [Hne _] _]; [done|]. intros _. simpl.
  destruct ws; [done|]. by destruct w.
Qed.

Lemma join_ends_unblank (ws : list string) :
  Forall is_word_of_text ws → ends_unblank (PyStr.join " " ws) = true.
Proof.
  induction 1 as [|w ws [Hne Hw] Hws IH]; [done|]. simpl.
  destruct ws as [|w' ws]; [by apply ends_unblank_word|].
  assert (Hj := join_nonempty (w' :: ws) Hws ltac:(done)).
  remember (PyStr.join " " (w' :: ws)) as rest.
  apply ends_unblank_app; [done|].
  change (" " +:+ rest) with (String " " rest).
  by destruct rest.
Qed.

Lemma strip_join (ws : list string) :
  Forall is_word_of_text ws →
  PyStr.strip (PyStr.join " " ws) = PyStr.join " " ws.
Proof.
  intros Hws. unfold PyStr.strip. rewrite lstrip_unblank.
  - by apply rstrip_unblank, join_ends_unblank.
  - destruct Hws as [|w ws [Hne Hw] Hws]; [done|]. simpl.
    destruct w as [|c w]; [done|]. simpl in Hw.
    apply andb_prop in Hw as [Hc _]. by destruct ws.
Qed.

(** The normalised text, in terms of the words left after the tags are
    removed. *)
Lemma clean_subtitle_text_words (text : string) :
  clean_subtitle_text text = PyStr.join " " (PyStr.split (PyRe.sub_tags text))
  ∧ Forall is_word_of_text (PyStr.split (PyRe.sub_tags text)).
Proof.
  assert (Hws : Forall is_word_of_text (PyStr.split (PyRe.sub_tags text)))
    by (by apply split_go_words).
  split; [|done]. unfold clean_subtitle_text. by apply strip_join.
Qed.

Lemma normalised_text_facts (text : string) :
  Forall is_word_of_text (PyStr.split (clean_subtitle_text text))
  ∧ whitespace_normal (clean_subtitle_text text)
  ∧ PyStr.strip (clean_subtitle_text text) = clean_subtitle_text text
  ∧ lf_free (clean_subtitle_text text).
Proof.
  unfold whitespace_normal.
  destruct (clean_subtitle_text_words text) as [Heq Hws].
  rewrite Heq, split_join by done.
  split; [done|]. split; [done|]. split; [by apply strip_join|].
  rewrite <- Heq. apply clean_subtitle_text_lf_free.
Qed.

(** X9. The normalised text is its words joined by single spaces: its
    words are those of the text without tags, it has no blank at either end
    (the final [strip] removes nothing), blanks other than single spaces
    are gone, and normalising the whitespace again gives the same text. *)
Theorem normalised_text_shape (text : string) :
  let clean := clean_subtitle_text text in
  PyStr.split clean = PyStr.split (PyRe.sub_tags text)
  ∧ Forall is_word_of_text (PyStr.split clean)
  ∧ whitespace_normal clean
  ∧ PyStr.strip clean = clean
  ∧ clean = PyStr.join " " (PyStr.split (PyRe.sub_tags text))
  ∧ lf_free clean.
Proof.
  intros clean. unfold clean, whitespace_normal.
  destruct (clean_subtitle_text_words text) as [-> Hws].
  rewrite split_join by done.
  repeat split; try done.
  - by apply strip_join.
  - rewrite <- (proj1 (clean_subtitle_text_words text)).
    apply clean_subtitle_text_lf_free.
Qed.

Section blocks.
Variable P : string → Prop.
Hypothesis clean_P :
  ∀ text, PyStr.truthy (clean_subtitle_text text) = true →
          P (clean_subtitle_text text).

Lemma flush_blocks (texts current : list string) :
  Forall P texts → Forall P (flush texts current).
Proof.
  intros H. unfold flush. destruct current; [done|].
  destruct (PyStr.truthy _) eqn:Ht; [|done].
  apply Forall_app. split; [done|]. repeat constructor. by apply clean_P.
Qed.

Lemma read_loop_blocks (f : srt_file) (st st' : locals) :
  Forall P (subtitle_texts st) →
  read_loop st f = inr st' →
  Forall P (subtitle_texts st').
Proof.
  revert st. induction f as [|[l|e] f IH]; intros st Hst; simpl.
  - by intros [= <-].
  - apply IH. unfold loop_body.
    repeat (match goal with |- context [if ?b then _ else _] => destruct b end);
      simpl; try done.
    by apply flush_blocks.
  - done.
Qed.

(** What holds of every non-empty normalised text holds of every block. *)
Lemma process_srt_file_blocks (f : srt_file) : Forall P (process_srt_file f).
Proof.
  unfold process_srt_file. destruct (read_loop initial f) as [e|st] eqn:Hf.
  - constructor.
  - apply flush_blocks. eapply read_loop_blocks; [|done]. constructor.
Qed.

End blocks.

(** X10. Every block the parser yields is a non-empty normalised text: it
    has at least one character, no blank at either end, single spaces as
    the only blanks, and no line feed. *)
Theorem parser_blocks_are_normalised (f : srt_file) :
  Forall (fun block =>
            block ≠ ""
            ∧ whitespace_normal block
            ∧ PyStr.strip block = block
            ∧ Forall is_word_of_text (PyStr.split block)
            ∧ lf_free block)
         (process_srt_file f).
Proof.
  apply process_srt_file_blocks. intros text Ht.
  destruct (normalised_text_facts text) as (Hw & Hn & Hs & Hlf).
  repeat split; try done. intros Heq. by rewrite Heq in Ht.
Qed.

(** X11. The written file holds the merged subtitles, one per line: reading
    it back line by line gives the merged sequence itself, nothing is lost
    to the emptiness check and no subtitle spreads over two lines. *)
Theorem artifact_reads_back (srt_files : list srt_file) :
  let merged := unique_subtitles (process_srt_file <$> srt_files) in
  IO.artifact_lines (write_output merged) = merged
  ∧ process_srt_directory srt_files =
      match srt_files with [] => None | _ => Some (write_output merged) end.
Proof.
  intros merged. split; [|by destruct srt_files].
  assert (Hblocks : Forall (Forall (fun b => b ≠ "" ∧ lf_free b))
                           (process_srt_file <$> srt_files)).
  { apply Forall_fmap, Forall_forall. intros f _.
    apply process_srt_file_blocks. intros text Ht.
    split; [intros Heq; by rewrite Heq in Ht|apply clean_subtitle_text_lf_free]. }
  assert (Hmerged : Forall (fun b => b ≠ "" ∧ lf_free b) merged).
  { apply Forall_forall. intros x Hx. unfold merged, unique_subtitles in Hx.
    apply unique_from_elem in Hx as [Hx _]. rewrite all_subtitles_concat in Hx.
    apply list_elem_of_In, in_concat in Hx as (b & Hb & Hxb).
    apply list_elem_of_In in Hb, Hxb.
    rewrite Forall_forall in Hblocks. specialize (Hblocks _ Hb).
    rewrite Forall_forall in Hblocks. by apply Hblocks. }
  rewrite artifact_lines_write_output
    by (eapply Forall_impl; [exact Hmerged|by intros ? [_ ?]]).
  clear Hblocks. induction Hmerged as [|b bs [Hne _] _ IH]; [done|].
  rewrite filter_cons, decide_True; [by rewrite IH|]. by destruct b.
Qed.

(** ** Normalising twice *)

Lemma tag_body_none_inv (s : string) :
  PyRe.tag_body s = None → str_all not_gt s = true.
Proof.
  induction s as [|c s IH]; [done|]. simpl. unfold not_gt.
  case_bool_decide; [done|]. simpl.
  destruct (PyRe.tag_body s); [done|]. intros _. by apply IH.
Qed.

(** When there is no match at a ['<']: nothing follows, or a ['>'] follows
    at once, or no ['>'] follows at all. *)
Lemma match_tag_lt_none (r : string) :
  PyRe.match_tag (String "<" r) = None ↔
  r = "" ∨ (∃ r', r = String ">" r') ∨ str_all not_gt r = true.
Proof.
  destruct r as [|c r]; [naive_solver|].
  cbn [PyRe.match_tag]. case_bool_decide as Hc.
  - subst. naive_solver.
  - split.
    + destruct (PyRe.tag_body r) eqn:Hr; [done|]. intros _. right. right.
      simpl. unfold not_gt at 1. rewrite bool_decide_eq_false_2 by done.
      by apply tag_body_none_inv.
    + intros [?|[[r' ?]|Hn]]; [done|congruence|].
      simpl in Hn. apply andb_prop in Hn as [_ Hn].
      by rewrite tag_body_none.
Qed.

Lemma tag_free_fixed (s : string) :
  tag_free s = true → PyRe.sub_go 0 s = s.
Proof.
  induction s as [|c s IH]; [done|]. cbn [tag_free PyRe.sub_go].
  destruct (PyRe.match_tag (String c s)); [done|]. intros Hs. by rewrite IH.
Qed.

Lemma sub_go_tag_free (s : string) (skip : nat) :
  tag_free (PyRe.sub_go skip s) = true.
Proof.
  revert skip. induction s as [|c s IH]; intros skip; [done|].
  cbn [PyRe.sub_go]. destruct skip as [|k]; [|apply IH].
  destruct (PyRe.match_tag (String c s)) as [n|] eqn:Hm; [apply IH|].
  cbn [tag_free]. rewrite IH.
  destruct (bool_decide (c = "<"%char)) eqn:Hc.
  - apply bool_decide_eq_true in Hc as ->.
    apply match_tag_lt_none in Hm as [->|[[r' ->]|Hn]].
    + done.
    + cbn [PyRe.sub_go]. by rewrite (match_tag_other ">"%char).
    + rewrite sub_go_no_gt by done.
      by rewrite (proj2 (match_tag_lt_none s)) by auto.
  - rewrite match_tag_other; [done|]. unfold not_lt. by rewrite Hc.
Qed.

Lemma squeezed_nil_inv (y : string) : squeezed "" y → y = "".
Proof. by inversion 1. Qed.

Lemma squeezed_no_gt (x y : string) :
  squeezed x y → str_all not_gt x = true → str_all not_gt y = true.
Proof.
  induction 1 as [|c x y Hc _ IH|c x y Hc _ IH|c x y Hc _ IH]; simpl; [done|..].
  - intros [-> Hx]%andb_prop. by rewrite IH.
  - intros [_ Hx]%andb_prop. by apply IH.
  - intros [_ Hx]%andb_prop. by apply IH.
Qed.

Lemma squeezed_tag_free (x y : string) :
  squeezed x y → tag_free x = true → tag_free y = true.
Proof.
  induction 1 as [|c x y Hc Hxy IH|c x y Hc _ IH|c x y Hc _ IH];
    cbn [tag_free]; [done|..].
  - destruct (PyRe.match_tag (String c x)) eqn:Hm; [done|]. intros Hx.
    rewrite (IH Hx).
    destruct (bool_decide (c = "<"%char)) eqn:Hlt.
    + apply bool_decide_eq_true in Hlt as ->.
      rewrite (proj2 (match_tag_lt_none y)); [done|].
      apply match_tag_lt_none in Hm as [->|[[r' ->]|Hn]].
      * left. by apply squeezed_nil_inv.
      * right. left. inversion Hxy; simplify_eq; [by eexists|done..].
      * right. right. by eapply squeezed_no_gt.
    + rewrite match_tag_other; [done|]. unfold not_lt. by rewrite Hlt.
  - destruct (PyRe.match_tag (String c x)); [done|]. apply IH.
  - destruct (PyRe.match_tag (String c x)); [done|]. intros Hx.
    by rewrite (IH Hx).
Qed.

Lemma join_split_go_some (w s : string) :
  PyStr.join " " (PyStr.split_go (Some w) s) =
  w +:+ PyStr.join " " (PyStr.split_go (Some "") s).
Proof.
  revert w. induction s as [|c s IH]; intros w.
  - simpl. by rewrite str_app_nil_r.
  - cbn [PyStr.split_go]. destruct (PyStr.isspace c).
    + destruct (PyStr.split_go None s); simpl; [by rewrite str_app_nil_r|done].
    + cbn [from_option id]. rewrite IH, (IH ("" +:+ String c "")).
      by rewrite str_app_assoc.
Qed.

Lemma squeezed_join_split (x : string) :
  squeezed x (PyStr.join " " (PyStr.split_go None x))
  ∧ squeezed x (PyStr.join " " (PyStr.split_go (Some "") x)).
Proof.
  induction x as [|c x [IH1 IH2]]; [split; constructor|].
  cbn [PyStr.split_go]. destruct (PyStr.isspace c) eqn:Hc.
  - split; [by apply squeezed_drop|].
    destruct (PyStr.split_go None x) eqn:Hx.
    + by apply squeezed_drop.
    + change (PyStr.join " " ("" :: s :: l))
        with (String " " (PyStr.join " " (s :: l))).
      by apply squeezed_space.
  - cbn [from_option id]. rewrite (join_split_go_some ("" +:+ String c "")).
    split; by apply squeezed_keep.
Qed.

(** X12. Normalising is idempotent: a normalised text holds no tag any
    more, and normalising it again returns it unchanged. *)
Theorem normalising_is_idempotent (text : string) :
  PyRe.sub_tags (clean_subtitle_text text) = clean_subtitle_text text
  ∧ clean_subtitle_text (clean_subtitle_text text) = clean_subtitle_text text.
Proof.
  assert (Hfixed : PyRe.sub_tags (clean_subtitle_text text) =
                   clean_subtitle_text text).
  { apply tag_free_fixed.
    rewrite (proj1 (clean_subtitle_text_words text)).
    eapply squeezed_tag_free; [apply squeezed_join_split|].
    apply sub_go_tag_free. }
  split; [done|].
  destruct (normalised_text_facts text) as (_ & Hn & Hs & _).
  unfold clean_subtitle_text at 1. rewrite Hfixed.
  unfold whitespace_normal in Hn. by rewrite Hn.
Qed.

(** * Further properties of the analyzer *)

(** ** Tokens and sentences *)

Lemma findall_go_chars (Q : ascii → bool) (cur : option string) (s : string) :
  str_all Q (default "" cur) = true →
  str_all Q s = true →
  Forall (fun w => str_all Q w = true) (PyRe.findall_go cur s).
Proof.
  revert cur. induction s as [|c s IH]; intros cur Hcur Hs; simpl.
  - destruct cur; repeat constructor. done.
  - simpl in Hs. apply andb_prop in Hs as [Hc Hs].
    destruct (PyRe.is_word c).
    + apply IH; [|done]. simpl. rewrite str_all_app. simpl. rewrite Hc.
      by destruct cur; simpl in *; rewrite ?Hcur.
    + destruct cur; [constructor; [done|]|]; by apply IH.
Qed.

Lemma findall_go_words (cur : option string) (s : string) :
  from_option (fun w => w ≠ "" ∧ str_all PyRe.is_word w = true) True cur →
  Forall (fun w => w ≠ "" ∧ str_all PyRe.is_word w = true)
         (PyRe.findall_go cur s).
Proof.
  revert cur. induction s as [|c s IH]; intros cur Hcur; simpl.
  - destruct cur as [w|]; constructor; [exact Hcur|constructor].
  - destruct (PyRe.is_word c) eqn:Hc.
    + apply IH. simpl. split.
      * by destruct cur as [[|??]|].
      * rewrite str_all_app. simpl str_all at 2. rewrite Hc. simpl.
        rewrite andb_true_r. destruct cur as [w|]; [|done].
        by destruct Hcur as [_ ?].
    + destruct cur as [w|]; [constructor; [exact Hcur|]|]; by apply IH.
Qed.

Lemma lower_not_upper (s : string) : str_all not_upper (PyStr.lower s) = true.
Proof.
  induction s as [|c s IH]; [done|]. simpl. rewrite IH, andb_true_r.
  by destruct c as [[] [] [] [] [] [] [] []].
Qed.

Lemma lower_ascii (s : string) :
  ascii_text s → ascii_text (PyStr.lower s).
Proof.
  unfold ascii_text. induction s as [|c s IH]; [done|]. simpl.
  intros [Hc Hs]%andb_prop. rewrite (IH Hs), andb_true_r.
  revert Hc. by destruct c as [[] [] [] [] [] [] [] []].
Qed.

(** X13. For ASCII text, every word token is a non-empty run of the word
    characters [A-Za-z0-9_] of that text, lower-cased: it holds only ASCII
    word characters and no upper-case letter. *)
Theorem tokens_are_lower_case_words (text : string) :
  ascii_text text →
  Forall (fun w => w ≠ ""
                   ∧ str_all PyRe.is_word w = true
                   ∧ str_all not_upper w = true
                   ∧ ascii_text w)
         (words (__init__ text)).
Proof.
  intros Hascii. simpl. unfold _tokenize, PyRe.findall_words.
  pose proof (findall_go_words None (PyStr.lower text) I) as H1.
  pose proof (findall_go_chars not_upper None (PyStr.lower text)
                eq_refl (lower_not_upper text)) as H2.
  pose proof (findall_go_chars is_ascii_char None (PyStr.lower text)
                eq_refl (lower_ascii text Hascii)) as H3.
  rewrite Forall_forall in H1, H2, H3. apply Forall_forall. intros w Hw.
  destruct (H1 w Hw). split; [done|]. split; [done|].
  split; [by apply H2|by apply H3].
Qed.

Lemma tokens_are_lower_case_words_witness :
  Forall (fun w => w ≠ ""
                   ∧ str_all PyRe.is_word w = true
                   ∧ str_all not_upper w = true
                   ∧ ascii_text w)
         (words (__init__ "Cats run. Dogs_2 run FAST!")).
Proof.
  apply (tokens_are_lower_case_words "Cats run. Dogs_2 run FAST!").
  reflexivity.
Defined.

Lemma split_go_pieces (cur : string) (in_run : bool) (s : string) :
  str_all not_terminator cur = true →
  Forall (fun p => str_all not_terminator p = true) (PyRe.split_go cur in_run s).
Proof.
  revert cur in_run. induction s as [|c s IH]; intros cur in_run Hcur; simpl.
  - by repeat constructor.
  - destruct (PyRe.is_terminator c) eqn:Hc.
    + destruct in_run; [by apply IH|]. constructor; [done|]. by apply IH.
    + apply IH. rewrite str_all_app, Hcur. simpl. unfold not_terminator.
      by rewrite Hc.
Qed.

Lemma lstrip_starts_unblank (s : string) : starts_unblank (PyStr.lstrip s) = true.
Proof.
  induction s as [|c s IH]; [done|]. simpl.
  destruct (PyStr.isspace c) eqn:Hc; [done|]. simpl. unfold not_space.
  by rewrite Hc.
Qed.

Lemma rstrip_starts_unblank (s : string) :
  starts_unblank s = true → starts_unblank (PyStr.rstrip s) = true.
Proof.
  destruct s as [|c s]; [done|]. simpl.
  by destruct (PyStr.is_empty _ && PyStr.isspace c).
Qed.

Lemma rstrip_ends_unblank (s : string) : ends_unblank (PyStr.rstrip s) = true.
Proof.
  induction s as [|c s IH]; [done|]. simpl.
  destruct (PyStr.rstrip s) as [|c' s'] eqn:Hs; simpl.
  - destruct (PyStr.isspace c) eqn:Hc; [done|]. simpl. unfold not_space.
    by rewrite Hc.
  - exact IH.
Qed.

(** Stripping twice is stripping once. *)
Lemma strip_strip (s : string) : PyStr.strip (PyStr.strip s) = PyStr.strip s.
Proof.
  unfold PyStr.strip at 1.
  rewrite lstrip_unblank.
  - apply rstrip_unblank, rstrip_ends_unblank.
  - pose proof (rstrip_starts_unblank _ (lstrip_starts_unblank s)) as H.
    unfold PyStr.strip. by destruct (PyStr.rstrip (PyStr.lstrip s)).
Qed.

(** X14. Every sentence is non-empty, has no blank at either end and holds
    none of the terminators ['.'], ['!'], ['?']. *)
Theorem sentences_are_trimmed_pieces (text : string) :
  Forall (fun s => s ≠ ""
                   ∧ PyStr.strip s = s
                   ∧ str_all not_terminator s = true)
         (sentences (__init__ text)).
Proof.
  simpl. unfold _split_into_sentences.
  apply Forall_fmap, Forall_forall. intros p [Hp Hin]%list_elem_of_filter.
  simpl. split; [intros Heq; by rewrite Heq in Hp|].
  split; [apply strip_strip|]. apply strip_all.
  pose proof (split_go_pieces "" false text eq_refl) as H.
  rewrite Forall_forall in H. by apply H.
Qed.

(** ** Words and sentence lengths *)

Lemma findall_go_length (cur : option string) (s : string) :
  length (PyRe.findall_go cur s) =
  (match cur with Some _ => 1 | None => 0 end)
  + word_starts (bool_decide (is_Some cur)) s.
Proof.
  revert cur. induction s as [|c s IH]; intros cur; simpl.
  - destruct cur; simpl; lia.
  - destruct (PyRe.is_word c); simpl.
    + rewrite IH. simpl. destruct cur; simpl; lia.
    + destruct cur; simpl; rewrite IH; simpl; lia.
Qed.

Lemma findall_words_length (s : string) :
  length (PyRe.findall_words s) = word_starts false s.
Proof. unfold PyRe.findall_words. by rewrite findall_go_length. Qed.

Lemma is_word_lower_char (c : ascii) :
  PyRe.is_word (PyStr.lower_char c) = PyRe.is_word c.
Proof. by destruct c as [[] [] [] [] [] [] [] []]. Qed.

Lemma word_starts_lower (prev : bool) (s : string) :
  word_starts prev (PyStr.lower s) = word_starts prev s.
Proof.
  revert prev. induction s as [|c s IH]; intros prev; [done|].
  simpl. by rewrite is_word_lower_char, IH.
Qed.

Lemma isspace_not_word (c : ascii) :
  PyStr.isspace c = true → PyRe.is_word c = false.
Proof. by destruct c as [[] [] [] [] [] [] [] []]. Qed.

Lemma is_terminator_not_word (c : ascii) :
  PyRe.is_terminator c = true → PyRe.is_word c = false.
Proof. by destruct c as [[] [] [] [] [] [] [] []]. Qed.

Lemma word_starts_app (prev : bool) (a b : string) :
  word_starts prev (a +:+ b) =
  word_starts prev a + word_starts (ends_in_word prev a) b.
Proof.
  revert prev. induction a as [|c a IH]; intros prev; [done|].
  rewrite str_app_cons. simpl. rewrite IH. lia.
Qed.

Lemma ends_in_word_app (prev : bool) (a b : string) :
  ends_in_word prev (a +:+ b) = ends_in_word (ends_in_word prev a) b.
Proof.
  revert prev. induction a as [|c a IH]; intros prev; [done|].
  rewrite str_app_cons. simpl. by rewrite IH.
Qed.

Lemma word_starts_lstrip (s : string) :
  word_starts false (PyStr.lstrip s) = word_starts false s.
Proof.
  induction s as [|c s IH]; [done|]. simpl.
  destruct (PyStr.isspace c) eqn:Hc; [|done].
  by rewrite IH, (isspace_not_word c Hc).
Qed.

Lemma word_starts_rstrip (prev : bool) (s : string) :
  word_starts prev (PyStr.rstrip s) = word_starts prev s.
Proof.
  revert prev. induction s as [|c s IH]; intros prev; [done|]. simpl.
  destruct (PyStr.is_empty (PyStr.rstrip s) && PyStr.isspace c) eqn:Hb.
  - apply andb_prop in Hb as [He Hc]. rewrite (isspace_not_word c Hc). simpl.
    rewrite <- IH. by destruct (PyStr.rstrip s).
  - simpl. by rewrite IH.
Qed.

Lemma word_starts_strip (s : string) :
  word_starts false (PyStr.strip s) = word_starts false s.
Proof. unfold PyStr.strip. by rewrite word_starts_rstrip, word_starts_lstrip. Qed.

(** Cutting a text at its terminators cuts no word. *)
Lemma split_go_word_starts (cur : string) (in_run : bool) (s : string) :
  (in_run = true → cur = "") →
  sum_list (word_starts false <$> PyRe.split_go cur in_run s) =
  word_starts false cur + word_starts (ends_in_word false cur) s.
Proof.
  revert cur in_run. induction s as [|c s IH]; intros cur in_run Hrun.
  - simpl. lia.
  - cbn [PyRe.split_go]. destruct (PyRe.is_terminator c) eqn:Hc.
    + cbn [word_starts]. rewrite (is_terminator_not_word c Hc). simpl.
      destruct in_run.
      * rewrite (Hrun eq_refl). rewrite IH by done. simpl. lia.
      * rewrite fmap_cons. simpl. rewrite IH by done. simpl. lia.
    + rewrite IH by done. rewrite word_starts_app, ends_in_word_app. simpl. lia.
Qed.

Lemma sentence_lengths_sum (text : string) :
  sum_list (sentence_lengths (__init__ text)) = word_starts false text.
Proof.
  unfold sentence_lengths. simpl. unfold _split_into_sentences.
  pose proof (split_go_word_starts "" false text ltac:(done)) as Hsum.
  simpl in Hsum. rewrite <- Hsum. unfold PyRe.split_terminators.
  generalize (PyRe.split_go "" false text). intros pieces.
  induction pieces as [|p pieces IH]; [done|].
  rewrite filter_cons. case_decide as Hp.
  - rewrite !fmap_cons. simpl. rewrite findall_words_length, word_starts_strip.
    f_equal. exact IH.
  - rewrite fmap_cons. simpl. rewrite <- IH.
    rewrite <- (word_starts_strip p).
    destruct (PyStr.strip p); [done|]. by destruct Hp.
Qed.

(** X15. For ASCII text, the sentence lengths add up to the number of word
    tokens: no word is lost or counted twice when the text is cut into
    sentences and lower-cased. *)
Theorem sentence_lengths_add_up (text : string) :
  ascii_text text →
  let self := __init__ text in
  sum_list (sentence_lengths self) = length (words self)
  ∧ ∃ st, basic_stats self = inr st
          ∧ sum_list (sentence_lengths self) = total_words st.
Proof.
  intros _ self.
  assert (Hsum : sum_list (sentence_lengths self) = length (words self)).
  { unfold self. rewrite sentence_lengths_sum. simpl. unfold _tokenize.
    by rewrite findall_words_length, word_starts_lower. }
  split; [done|].
  destruct (basic_stats_total self) as [st Hst]. exists st. split; [done|].
  rewrite Hsum. unfold basic_stats in Hst. rewrite ttr_total in Hst.
  simpl in Hst. by injection Hst as <-.
Qed.

Lemma sentence_lengths_add_up_witness :
  sum_list (sentence_lengths (__init__ "Cats run. Dogs run fast! Go"))
  = length (words (__init__ "Cats run. Dogs run fast! Go")).
Proof.
  refine (proj1 (sentence_lengths_add_up "Cats run. Dogs run fast! Go" _)).
  reflexivity.
Defined.

(** ** Ranges of the statistics *)

Lemma distinct_le_length (l : list string) :
  size (list_to_set l : gset string) ≤ length l
  ∧ (size (list_to_set l : gset string) = 0 ↔ length l = 0).
Proof.
  split.
  - induction l as [|x l IH]; [done|]. simpl.
    destruct (decide (x ∈ (list_to_set l : gset string))) as [Hx|Hx].
    + replace ({[x]} ∪ list_to_set l) with (list_to_set l : gset string)
        by set_solver. lia.
    + rewrite size_union by set_solver. rewrite size_singleton. lia.
  - destruct l as [|x l]; [done|]. simpl. split; [|done].
    intros H%size_empty_inv. set_solver.
Qed.

Lemma round_half_even_range (x : Q) (n : Z) :
  (0 <= x)%Q → (x <= inject_Z n)%Q →
  (0 ≤ PyNum.round_half_even x ≤ n)%Z.
Proof.
  intros H0 Hn. unfold PyNum.round_half_even.
  pose proof (Qfloor_resp_le _ _ H0) as Hf0. change (Qfloor 0) with 0%Z in Hf0.
  pose proof (Qfloor_resp_le _ _ Hn) as Hfn. rewrite Qfloor_Z in Hfn.
  pose proof (Qfloor_le x) as Hfx.
  assert (Hup : ¬ (x - inject_Z (Qfloor x) < 1 # 2)%Q → (Qfloor x + 1 ≤ n)%Z).
  { intros Hge%Qnot_lt_le. enough (Qfloor x < n)%Z by lia.
    rewrite Zlt_Qlt. lra. }
  destruct (Qcompare_spec (x - inject_Z (Qfloor x)) (1 # 2)) as [Heq|Hlt|Hgt].
  - destruct (Z.even (Qfloor x)); [lia|]. split; [lia|]. apply Hup. lra.
  - lia.
  - split; [lia|]. apply Hup. lra.
Qed.

(** X16. The type-token ratio lies between 0 and 1: there are never more
    distinct words than words, there is no distinct word exactly when there
    is no word, and the reported ratio is the integer [0] or a decimal
    between [0.0000] and [1.0000]. *)
Theorem type_token_ratio_range (self : CorpusAnalyzer) :
  ∃ st, basic_stats self = inr st
        ∧ unique_words st ≤ total_words st
        ∧ (unique_words st = 0 ↔ total_words st = 0)
        ∧ (type_token_ratio st = RInt 0
           ∨ ∃ m, type_token_ratio st = RDec m 4 ∧ (0 ≤ m ≤ 10000)%Z).
Proof.
  unfold basic_stats. rewrite ttr_total. simpl. eexists. split; [done|]. simpl.
  destruct (distinct_le_length (words self)) as [Hle Hzero].
  split; [done|]. split; [done|].
  case_decide as Ht; [|by left]. right. eexists. split; [done|].
  apply (round_half_even_range _ 10000).
  - apply Qmult_le_0_compat; [|done]. unfold Qle. simpl. lia.
  - change (PyNum.pow10 4) with 10000%Z.
    unfold Qle, Qmult, inject_Z. cbn [Qnum Qden]. rewrite Pos.mul_1_r.
    destruct (length (words self)) as [|n] eqn:Hn; [lia|].
    rewrite <- Pos.of_nat_succ. lia.
Qed.

Lemma sumQ_of_nat (l : list nat) :
  (Numpy.sumQ (Numpy.of_nat <$> l) == Numpy.of_nat (sum_list l))%Q.
Proof.
  induction l as [|x l IH]; [done|]. simpl. rewrite IH.
  unfold Numpy.of_nat. rewrite Nat2Z.inj_add, inject_Z_plus. reflexivity.
Qed.

Lemma mean_nonempty (l : list nat) :
  l ≠ [] →
  ∃ q, Numpy.mean l = Rat q
       ∧ (q == Numpy.of_nat (sum_list l) / Numpy.of_nat (length l))%Q.
Proof.
  intros Hl. unfold Numpy.mean, Numpy.meanQ.
  destruct l as [|x l]; [done|]. rewrite fmap_cons.
  eexists. split; [reflexivity|].
  rewrite <- fmap_cons, sumQ_of_nat, length_fmap. reflexivity.
Qed.

Lemma basic_stats_fields (self : CorpusAnalyzer) (st : stats) :
  basic_stats self = inr st →
  total_words st = length (words self)
  ∧ total_sentences st = length (sentences self)
  ∧ average_sentence_length st =
      PyNum.round (PyFloat (Numpy.mean (sentence_lengths self))) 2.
Proof.
  unfold basic_stats. rewrite ttr_total. simpl. by intros [= <-].
Qed.

(** X17. For ASCII text with at least one sentence, the mean that is
    rounded into [average_sentence_length] is
    [total_words / total_sentences]. *)
Theorem average_is_words_per_sentence (text : string) :
  ascii_text text →
  sentences (__init__ text) ≠ [] →
  ∃ q st,
    basic_stats (__init__ text) = inr st
    ∧ Numpy.mean (sentence_lengths (__init__ text)) = Rat q
    ∧ average_sentence_length st = PyNum.round (PyFloat (Rat q)) 2
    ∧ (q == Numpy.of_nat (total_words st) / Numpy.of_nat (total_sentences st))%Q.
Proof.
  intros _ Hne. set (self := __init__ text) in *.
  destruct (basic_stats_total self) as [st Hst].
  destruct (basic_stats_fields self st Hst) as (Hw & Hs & Ha).
  destruct (mean_nonempty (sentence_lengths self)) as (q & Hq & Heq).
  { unfold sentence_lengths. intros H%fmap_nil_inv. done. }
  exists q, st. split; [done|]. split; [done|].
  split; [by rewrite Ha, Hq|].
  rewrite Heq, Hw, Hs. unfold self at 1. rewrite sentence_lengths_sum.
  assert (Hwords : length (words self) = word_starts false text).
  { simpl. unfold _tokenize.
    by rewrite findall_words_length, word_starts_lower. }
  rewrite Hwords. unfold sentence_lengths. by rewrite length_fmap.
Qed.

Lemma average_is_words_per_sentence_witness :
  ∃ q, Numpy.mean (sentence_lengths (__init__ "Cats run. Dogs run fast!")) = Rat q
       ∧ (q == 5 / 2)%Q.
Proof.
  destruct (average_is_words_per_sentence "Cats run. Dogs run fast!")
    as (q & st & Hst & Hq & _ & Heq); [reflexivity|by vm_compute|].
  exists q. split; [done|]. rewrite Heq.
  vm_compute in Hst. injection Hst as <-. by vm_compute.
Defined.

(** ** The frequency table for different [top_n] *)

(** X18. Asking for more words only extends the table: the table for [n]
    is a prefix of the table for any [m] from [n] on.  It is empty for
    [n <= 0]; and once [m] reaches the number of distinct words the table
    lists them all and its counts add up to [total_words]. *)
Theorem word_frequency_grows (text : string) (n m : Z) :
  (n ≤ m)%Z →
  let self := __init__ text in
  word_frequency self n `prefix_of` word_frequency self m
  ∧ ((n ≤ 0)%Z → word_frequency self n = [])
  ∧ ((Z.of_nat (size (list_to_set (words self) : gset string)) ≤ m)%Z →
     word_frequency self m ≡ₚ Collections.Counter (words self)
     ∧ sum_list (word_frequency self m).*2 = length (words self)).
Proof.
  intros Hnm self. unfold word_frequency, Collections.most_common.
  split.
  { exists (drop (Z.to_nat n) (take (Z.to_nat m)
              (Collections.rank (Collections.Counter (words self))))).
    rewrite <- (take_drop (Z.to_nat n)) at 1.
    rewrite take_take. f_equal. f_equal. lia. }
  split.
  { intros Hn. by replace (Z.to_nat n) with 0 by lia. }
  intros Hm. rewrite take_ge.
  - split; [apply rank_perm|]. by rewrite rank_perm, sum_Counter.
  - rewrite rank_perm, distinct_keys_Counter. lia.
Qed.

Lemma word_frequency_grows_witness :
  word_frequency (__init__ "a b a c") 1 `prefix_of`
    word_frequency (__init__ "a b a c") 5
  ∧ sum_list (word_frequency (__init__ "a b a c") 5).*2 = 4.
Proof.
  destruct (word_frequency_grows "a b a c" 1 5) as (Hp & _ & Hfull); [lia|].
  split; [exact Hp|]. apply Hfull. by vm_compute.
Defined.

(** ** The distribution as the report lists it *)

Lemma sorted_insert_perm (x : nat * nat) (d : list (nat * nat)) :
  sorted_insert x d ≡ₚ x :: d.
Proof.
  induction d as [|y d IH]; simpl; [done|].
  case_decide; [|done]. by rewrite IH, Permutation_swap.
Qed.

Lemma sorted_items_perm (d : list (nat * nat)) : sorted_items d ≡ₚ d.
Proof.
  induction d as [|x d IH]; simpl; [done|].
  by rewrite sorted_insert_perm, IH.
Qed.

Lemma sorted_insert_sorted (x : nat * nat) (d : list (nat * nat)) :
  x.1 ∉ d.*1 →
  StronglySorted (fun a b => a.1 < b.1) d →
  StronglySorted (fun a b => a.1 < b.1) (sorted_insert x d).
Proof.
  intros Hx Hd. induction Hd as [|y d Hd IH Hy]; simpl.
  - repeat constructor.
  - rewrite fmap_cons in Hx. apply not_elem_of_cons in Hx as [Hxy Hx].
    case_decide as Hlt.
    + constructor; [by apply IH|].
      rewrite sorted_insert_perm. by constructor.
    + constructor; [by constructor|].
      assert (x.1 < y.1) by lia. constructor; [done|].
      eapply Forall_impl; [exact Hy|]. simpl. lia.
Qed.

Lemma sorted_items_sorted (d : list (nat * nat)) :
  NoDup d.*1 → StronglySorted (fun a b => a.1 < b.1) (sorted_items d).
Proof.
  induction d as [|x d IH]; simpl; [constructor|].
  intros [Hx Hd]%NoDup_cons. apply sorted_insert_sorted; [|by apply IH].
  by rewrite sorted_items_perm.
Qed.

Lemma generate_report_lines (self : CorpusAnalyzer) (st : stats) :
  basic_stats self = inr st →
  generate_report self =
    inr (PyStr.join PyStr.nl
           (report_lines st (word_frequency self 10)
              (sentence_length_distribution self))).
Proof. unfold generate_report. by intros ->. Qed.

Lemma report_lines_split (st : stats) (freq : list (string * nat))
    (dist : list (nat * nat)) :
  ∃ before,
    report_lines st freq dist =
      before ++ [PyStr.nl +:+ "=== Sentence Length Distribution ==="]
             ++ (distribution_line <$> sorted_items dist)
    ∧ length before = 10 + length freq.
Proof.
  unfold report_lines. eexists. split.
  - rewrite app_assoc. reflexivity.
  - rewrite length_app, length_fmap. reflexivity.
Qed.

(** X19. The report ends with the sentence-length distribution in
    increasing order of length: the lines after the distribution heading
    are the lines of a listing that holds the entries of the distribution,
    each once, every length smaller than those after it. *)
Theorem report_distribution_is_sorted (text : string) :
  let self := __init__ text in
  let dist := sentence_length_distribution self in
  ∃ st before listing,
    basic_stats self = inr st
    ∧ generate_report self =
        inr (PyStr.join PyStr.nl
               (before
                ++ [PyStr.nl +:+ "=== Sentence Length Distribution ==="]
                ++ (distribution_line <$> listing)))
    ∧ listing ≡ₚ dist
    ∧ StronglySorted (fun a b => a.1 < b.1) listing
    ∧ length before = 10 + length (word_frequency self 10).
Proof.
  intros self dist.
  destruct (basic_stats_total self) as [st Hst].
  destruct (report_lines_split st (word_frequency self 10) dist)
    as (before & Hlines & Hlen).
  exists st, before, (sorted_items dist).
  split; [done|]. split.
  { rewrite (generate_report_lines self st Hst). fold dist. by rewrite Hlines. }
  split; [apply sorted_items_perm|].
  split; [apply sorted_items_sorted, keys_Counter_NoDup|done].
Qed.

(** ** Language tags *)

Lemma incr_keys_NoDup {A : Type} `{EqDecision A} (k : A) (c : list (A * nat)) :
  NoDup c.*1 → NoDup (Collections.incr k c).*1.
Proof.
  intros Hc. rewrite keys_incr. case_decide as Hk; [done|].
  apply NoDup_app. split; [done|]. split; [|apply NoDup_singleton].
  intros y Hy ->%list_elem_of_singleton. done.
Qed.

Lemma detect_loop_counts {St : Type}
    (detect : St → string → result string * St)
    (sentences : list string) (counts : list (string * nat)) (st : St) :
  NoDup counts.*1 →
  Forall (fun e => 1 ≤ e.2) counts →
  let tags := (detect_loop detect st counts sentences).1 in
  sum_list tags.*2 = sum_list counts.*2 + length sentences
  ∧ NoDup tags.*1
  ∧ Forall (fun e => 1 ≤ e.2) tags.
Proof.
  revert counts st. induction sentences as [|s sentences IH];
    intros counts st Hnd Hpos; simpl.
  - split; [lia|done].
  - destruct (detect st s) as [[e|lang] st'].
    + destruct (IH (Collections.incr "unknown" counts) st') as (Hs & ? & ?);
        [by apply incr_keys_NoDup|by apply positive_incr|].
      split; [|done]. rewrite Hs, sum_incr. lia.
    + destruct (IH (Collections.incr lang counts) st') as (Hs & ? & ?);
        [by apply incr_keys_NoDup|by apply positive_incr|].
      split; [|done]. rewrite Hs, sum_incr. lia.
Qed.

Lemma detect_loop_all_fail {St : Type}
    (detect : St → string → result string * St)
    (sentences : list string) (n : nat) (st : St) :
  (∀ st s, ∃ e st', detect st s = (inl e, st')) →
  (detect_loop detect st [("unknown", S n)] sentences).1 =
  [("unknown", S n + length sentences)].
Proof.
  intros Hfail. revert n st. induction sentences as [|s sentences IH];
    intros n st; simpl.
  - by rewrite Nat.add_0_r.
  - destruct (Hfail st s) as (e & st' & ->). simpl.
    rewrite (IH (S n)). do 3 f_equal. lia.
Qed.

(** X20. Whatever the classifier answers, every sentence is counted once:
    the language counts add up to the number of sentences, each language is
    listed once with a count of at least 1.  If the classifier raises on
    every sentence, all of them are counted under ["unknown"]. *)
Theorem language_counts_cover_sentences {St : Type}
    (detect : St → string → result string * St)
    (st : St) (self : CorpusAnalyzer) :
  let tags := (detect_languages detect st self).1 in
  sum_list tags.*2 = length (sentences self)
  ∧ NoDup tags.*1
  ∧ Forall (fun e => 1 ≤ e.2) tags
  ∧ ((∀ st s, ∃ e st', detect st s = (inl e, st')) →
     tags = match sentences self with
            | [] => []
            | _ :: _ => [("unknown", length (sentences self))]
            end).
Proof.
  intros tags. unfold tags, detect_languages.
  destruct (detect_loop_counts detect (sentences self) [] st)
    as (Hs & Hnd & Hpos); [constructor..|].
  split; [by rewrite Hs|]. split; [done|]. split; [done|].
  intros Hfail. destruct (sentences self) as [|s rest]; [done|].
  simpl. destruct (Hfail st s) as (e & st' & ->). simpl.
  by rewrite (detect_loop_all_fail detect rest 0 st' Hfail).
Qed.

Lemma language_counts_cover_sentences_witness :
  (detect_languages (fun (st : unit) (s : string) =>
                       (inl LangDetectException, st)) ()
     (__init__ "12. 34!")).1
  = [("unknown", 2)].
Proof.
  destruct (language_counts_cover_sentences
              (fun (st : unit) (s : string) => (inl LangDetectException, st))
              () (__init__ "12. 34!")) as (_ & _ & _ & Hfail).
  apply Hfail. intros st s. by eexists _, _.
Defined.

(** * Subtitle extraction (sami_programs.py) *)

Lemma subtitle_streams_filter (items found : list json) :
  sami_programs.subtitle_streams items = inr found →
  found = filter kept_stream items
  ∧ Forall (fun s => ∃ b, sami_programs.is_subtitle s = inr b) items.
Proof.
  revert found. induction items as [|s items IH]; intros found; simpl.
  - by intros [= <-].
  - destruct (sami_programs.is_subtitle s) as [e|keep] eqn:Hs; [done|].
    destruct (sami_programs.subtitle_streams items) as [e|kept]; [done|].
    intros [= <-]. destruct (IH kept eq_refl) as [-> Hall].
    split; [|constructor; eauto].
    rewrite filter_cons. destruct keep.
    + by rewrite decide_True by exact Hs.
    + rewrite decide_False; [done|]. unfold kept_stream. by rewrite Hs.
Qed.




Lemma subtitle_streams_error (before after : list json) (bad : json)
    (e : lookup_error) :
  sami_programs.is_subtitle bad = inl e →
  ∃ e', sami_programs.subtitle_streams (before ++ bad :: after) = inl e'.
Proof.
  intros Hbad. induction before as [|s before [e' IH]]; simpl.
  - rewrite Hbad. eauto.
  - rewrite IH. destruct (sami_programs.is_subtitle s); eauto.
Qed.

(** X22. [get_subtitle_info] returns [None] whenever ffprobe exits with a
    code other than 0, whatever it printed; and a single stream that is not
    a dict with a ["codec_type"] makes it return [None] for the whole file,
    subtitle streams next to it included. *)
Theorem subtitle_info_failures
    (returncode : Z) (loaded : option json) (data : json)
    (before after : list json) (bad : json) (e : lookup_error) :
  returncode ≠ 0%Z →
  sami_programs.getitem data "streams" = inr (JArr (before ++ bad :: after)) →
  sami_programs.is_subtitle bad = inl e →
  sami_programs.get_subtitle_info (Exited returncode loaded) = None
  ∧ sami_programs.get_subtitle_info (Exited 0 (Some data)) = None
  ∧ sami_programs.get_subtitle_info RunRaised = None
  ∧ sami_programs.get_subtitle_info (Exited 0 None) = None.
Proof.
  intros Hrc Hdata Hbad. unfold sami_programs.get_subtitle_info.
  rewrite bool_decide_eq_true_2 by done. split; [done|].
  split; [|done]. rewrite bool_decide_eq_false_2 by (by intros ?).
  rewrite Hdata. simpl.
  by destruct (subtitle_streams_error before after bad e Hbad) as [e' ->].
Qed.

Lemma subtitle_info_failures_witness :
  sami_programs.get_subtitle_info
    (Exited 0 (Some (JObj [("streams",
       JArr [JObj [("index", JInt 2); ("codec_type", JStr "subtitle")];
             JObj [("index", JInt 3)]])]))) = None.
Proof.
  refine (proj1 (proj2 (subtitle_info_failures 1 None
            (JObj [("streams",
               JArr ([JObj [("index", JInt 2); ("codec_type", JStr "subtitle")]]
                     ++ JObj [("index", JInt 3)] :: []))])
            [JObj [("index", JInt 2); ("codec_type", JStr "subtitle")]] []
            (JObj [("index", JInt 3)]) KeyError _ _ _))).
  - discriminate.
  - reflexivity.
  - reflexivity.
Defined.

Lemma subtitle_info_kept (run : ffprobe_run) (found : list json) :
  sami_programs.get_subtitle_info run = Some found →
  Forall kept_stream found.
Proof.
  unfold sami_programs.get_subtitle_info.
  destruct run as [|rc [data|]]; [done| |by case_bool_decide].
  case_bool_decide; [done|].
  destruct (sami_programs.getitem data "streams") as [e|streams]; [done|].
  destruct (sami_programs.iterate streams) as [e|items]; [done|].
  destruct (sami_programs.subtitle_streams items) as [e|kept] eqn:Hk; [done|].
  intros [= <-]. destruct (subtitle_streams_filter _ _ Hk) as [-> _].
  apply Forall_forall. by intros s [Hs _]%list_elem_of_filter.
Qed.

(** ** Output file names *)

Lemma rfind_dot_none (s : string) :
  str_all not_dot s = true → sami_programs.rfind_dot s = None.
Proof.
  induction s as [|c s IH]; [done|]. simpl.
  intros [Hc Hs]%andb_prop. rewrite (IH Hs).
  unfold not_dot in Hc. apply negb_true_iff in Hc. by rewrite Hc.
Qed.

Lemma rfind_dot_app (a b : string) (j : nat) :
  sami_programs.rfind_dot b = Some j →
  sami_programs.rfind_dot (a +:+ b) = Some (String.length a + j).
Proof.
  intros Hb. induction a as [|c a IH]; [done|].
  rewrite str_app_cons. simpl. by rewrite IH.
Qed.

Lemma substring_prefix (a b : string) :
  String.substring 0 (String.length a) (a +:+ b) = a.
Proof.
  induction a as [|c a IH]; [by destruct b|].
  rewrite str_app_cons. simpl. by rewrite IH.
Qed.

(** X23. The output name of a video drops the extension: for a name
    [base.ext] with a non-empty [base] and a non-empty extension without
    dot, the stem is [base], so [x.mp4] and [x.mkv] are written to the same
    file [x.srt].  A name that is only a dot and an extension keeps it. *)
Theorem stem_drops_extension (base ext : string) :
  ext ≠ "" →
  str_all not_dot ext = true →
  (base ≠ "" → sami_programs.stem (base +:+ "." +:+ ext) = base)
  ∧ sami_programs.stem ("." +:+ ext) = "." +:+ ext
  ∧ sami_programs.stem ext = ext.
Proof.
  intros Hext Hdot.
  assert (Hfind : sami_programs.rfind_dot ("." +:+ ext) = Some 0).
  { change ("." +:+ ext) with (String "." ext). simpl.
    by rewrite rfind_dot_none. }
  split; [|split].
  - intros Hbase. unfold sami_programs.stem.
    rewrite (rfind_dot_app base _ 0 Hfind), Nat.add_0_r.
    rewrite !str_length_app. change (String.length ".") with 1.
    assert (0 < String.length base) by (destruct base; [done|simpl; lia]).
    assert (0 < String.length ext) by (destruct ext; [done|simpl; lia]).
    rewrite (proj2 (Nat.ltb_lt 0 _)) by done.
    rewrite (proj2 (Nat.ltb_lt _ _)) by lia.
    apply substring_prefix.
  - unfold sami_programs.stem. by rewrite Hfind.
  - unfold sami_programs.stem. by rewrite rfind_dot_none.
Qed.

Lemma stem_drops_extension_witness :
  sami_programs.stem "x.mp4" = "x" ∧ sami_programs.stem ".mkv" = ".mkv".
Proof.
  destruct (stem_drops_extension "x" "mp4") as (H1 & _); [done..|].
  destruct (stem_drops_extension "x" "mkv") as (_ & H2 & _); [done..|].
  split; [by apply H1|exact H2].
Defined.

(** ** The ffmpeg calls *)

Lemma extract_streams_calls (out : output_path) (v : video)
    (streams : list json) (calls : list ffmpeg_call) (e : option lookup_error) :
  sami_programs.extract_streams out v streams = (calls, e) →
  Forall (fun c => call_dir c = out
                   ∧ call_input c = video_path v
                   ∧ call_output c = sami_programs.stem (video_name v) +:+ ".srt"
                   ∧ ∃ stream, stream ∈ streams
                       ∧ sami_programs.getitem stream "index"
                         = inr (call_stream c)) calls
  ∧ length calls ≤ length streams
  ∧ (e = None → length calls = length streams).
Proof.
  revert calls e. induction streams as [|s streams IH]; intros calls e; simpl.
  - intros [= <- <-]. by repeat split.
  - destruct (sami_programs.getitem s "index") as [err|idx] eqn:Hs.
    + intros [= <- <-]. repeat split; [constructor|simpl; lia|done].
    + destruct (sami_programs.extract_streams out v streams) as [calls' e'].
      intros [= <- <-]. destruct (IH calls' e' eq_refl) as (Hall & Hlen & Hok).
      repeat split.
      * constructor.
        -- simpl. repeat split. exists s. split; [by left|done].
        -- eapply Forall_impl; [exact Hall|].
           intros c (? & ? & ? & stream & ? & ?). repeat split; try done.
           exists stream. split; [by right|done].
      * simpl. lia.
      * intros He. simpl. by rewrite Hok.
Qed.

(** X24. Every ffmpeg call writes to the chosen directory, to a file named
    after the video alone: the stem of the video's name followed by
    [".srt"].  The stream only sets the [-map] argument, so all subtitle
    streams of one video are written to the same file. *)
Theorem calls_are_named_after_the_video
    (out : output_path) (video_files : list video)
    (calls : list ffmpeg_call) (e : option lookup_error) :
  sami_programs.extract_videos out video_files = (calls, e) →
  Forall (fun c =>
            call_dir c = out
            ∧ ∃ v streams stream,
                v ∈ video_files
                ∧ call_input c = video_path v
                ∧ call_output c = sami_programs.stem (video_name v) +:+ ".srt"
                ∧ sami_programs.get_subtitle_info (ffprobe v) = Some streams
                ∧ stream ∈ streams
                ∧ sami_programs.getitem stream "index" = inr (call_stream c))
         calls.
Proof.
  revert calls e. induction video_files as [|v rest IH]; intros calls e; simpl.
  - by intros [= <- <-].
  - assert (Hrest : ∀ calls e,
              sami_programs.extract_videos out rest = (calls, e) →
              Forall (fun c =>
                call_dir c = out
                ∧ ∃ v0 streams stream,
                    v0 ∈ v :: rest
                    ∧ call_input c = video_path v0
                    ∧ call_output c =
                        sami_programs.stem (video_name v0) +:+ ".srt"
                    ∧ sami_programs.get_subtitle_info (ffprobe v0) = Some streams
                    ∧ stream ∈ streams
                    ∧ sami_programs.getitem stream "index"
                      = inr (call_stream c)) calls).
    { intros calls0 e0 H0. eapply Forall_impl; [by eapply IH|].
      intros c (? & v0 & streams & stream & ? & ?). split; [done|].
      exists v0, streams, stream. split; [by right|done]. }
    destruct (sami_programs.get_subtitle_info (ffprobe v))
      as [[|s streams]|] eqn:Hinfo; [by apply Hrest| |by apply Hrest].
    destruct (sami_programs.extract_streams out v (s :: streams))
      as [calls1 e1] eqn:Hs.
    destruct (extract_streams_calls _ _ _ _ _ Hs) as (Hall & _ & _).
    assert (Hmine : Forall (fun c =>
                call_dir c = out
                ∧ ∃ v0 streams0 stream,
                    v0 ∈ v :: rest
                    ∧ call_input c = video_path v0
                    ∧ call_output c =
                        sami_programs.stem (video_name v0) +:+ ".srt"
                    ∧ sami_programs.get_subtitle_info (ffprobe v0) = Some streams0
                    ∧ stream ∈ streams0
                    ∧ sami_programs.getitem stream "index"
                      = inr (call_stream c)) calls1).
    { eapply Forall_impl; [exact Hall|].
      intros c (? & ? & ? & stream & ? & ?). split; [done|].
      exists v, (s :: streams), stream. split; [by left|done]. }
    destruct e1 as [err|]; [by intros [= <- <-]|].
    destruct (sami_programs.extract_videos out rest) as [calls2 e2] eqn:Hr.
    intros [= <- <-]. apply Forall_app. split; [done|]. by eapply Hrest.
Qed.

Lemma calls_are_named_after_the_video_witness :
  Forall (fun c => call_output c = "a.srt")
    (sami_programs.extract_videos (DefaultDir "in")
       [{| video_path := "in/a.mp4"; video_name := "a.mp4";
           ffprobe := Exited 0 (Some (JObj [("streams",
             JArr [JObj [("index", JInt 2); ("codec_type", JStr "subtitle")];
                   JObj [("index", JInt 3); ("codec_type", JStr "subtitle")]])])) |}]).1.
Proof.
  eapply Forall_impl.
  - eapply calls_are_named_after_the_video. apply surjective_pairing.
  - intros c (_ & v & streams & stream & Hv & _ & Hout & _).
    apply list_elem_of_singleton in Hv. by subst v.
Defined.

(** X25. If no exception ends the run, ffmpeg is called once for every
    subtitle stream [get_subtitle_info] reports, over all videos; videos
    for which it reports none are skipped.  In any case there are no more
    calls than that. *)
Theorem one_call_per_subtitle_stream
    (out : output_path) (video_files : list video) :
  let run := sami_programs.extract_videos out video_files in
  length run.1 ≤ sum_list (reported_streams <$> video_files)
  ∧ (run.2 = None → length run.1 = sum_list (reported_streams <$> video_files)).
Proof.
  induction video_files as [|v rest IH]; [done|].
  cbn [sami_programs.extract_videos]. rewrite fmap_cons.
  cbn [sum_list sum_list_with id]. unfold reported_streams at 1 3.
  destruct (sami_programs.extract_videos out rest) as [calls2 e2].
  destruct IH as [IH1 IH2]. cbn [fst snd] in IH1, IH2.
  destruct (sami_programs.get_subtitle_info (ffprobe v))
    as [[|s streams]|] eqn:Hinfo; cbn [default from_option id length];
    [by split| |by split].
  destruct (sami_programs.extract_streams out v (s :: streams))
    as [calls1 e1] eqn:Hs.
  destruct (extract_streams_calls _ _ _ _ _ Hs) as (_ & Hlen & Hok).
  cbn [length] in Hlen, Hok.
  destruct e1 as [err|]; cbn [fst snd].
  - split; [lia|done].
  - rewrite length_app. split; [lia|]. intros He. rewrite Hok, IH2 by done. lia.
Qed.

(** X26. A subtitle stream without ["index"] ends the whole run with a
    [KeyError]: the streams of that video before it have been extracted,
    the streams after it and all later videos are never reached. *)
Theorem missing_index_aborts
    (out : output_path) (earlier later : list video) (v : video)
    (calls : list ffmpeg_call)
    (done_streams rest_streams : list json) (bad : json) (e : lookup_error) :
  sami_programs.extract_videos out earlier = (calls, None) →
  sami_programs.get_subtitle_info (ffprobe v)
    = Some (done_streams ++ bad :: rest_streams) →
  sami_programs.getitem bad "index" = inl e →
  Forall (fun s => ∃ i, sami_programs.getitem s "index" = inr i) done_streams →
  ∃ calls',
    sami_programs.extract_videos out (earlier ++ v :: later)
      = (calls ++ calls', Some e)
    ∧ length calls' = length done_streams
    ∧ e = KeyError.
Proof.
  intros Hearlier Hinfo Hbad Hdone.
  assert (Hstreams : ∃ calls',
            sami_programs.extract_streams out v (done_streams ++ bad :: rest_streams)
              = (calls', Some e)
            ∧ length calls' = length done_streams).
  { clear Hinfo. induction Hdone as [|s ss [i Hi] _ [calls' [IH1 IH2]]]; simpl.
    - rewrite Hbad. by exists [].
    - rewrite Hi, IH1. eexists. split; [done|]. simpl. by rewrite IH2. }
  destruct Hstreams as (calls' & Hs & Hlen). exists calls'.
  assert (He : e = KeyError).
  { apply subtitle_info_kept in Hinfo.
    rewrite Forall_forall in Hinfo.
    specialize (Hinfo bad ltac:(apply elem_of_app; right; by left)).
    unfold kept_stream, sami_programs.is_subtitle, sami_programs.getitem in *.
    destruct bad; try done.
    destruct (sami_programs.dict_get "index" members); by simplify_eq. }
  split; [|done].
  revert calls Hearlier. induction earlier as [|w earlier IH]; intros calls; simpl.
  - intros [= <-]. rewrite Hinfo.
    destruct (done_streams ++ bad :: rest_streams) eqn:Hl;
      [by destruct done_streams|].
    by rewrite Hs.
  - destruct (sami_programs.get_subtitle_info (ffprobe w)) as [[|s ss]|];
      [by apply IH| |by apply IH].
    destruct (sami_programs.extract_streams out w (s :: ss)) as [c1 [e1|]];
      [done|].
    destruct (sami_programs.extract_videos out earlier) as [c2 e2] eqn:He2.
    intros [= <- ->]. rewrite (IH c2 eq_refl). by rewrite app_assoc.
Qed.

Lemma one_call_per_subtitle_stream_witness :
  length (sami_programs.extract_videos (GivenDir "out")
    [{| video_path := "in/a.mkv"; video_name := "a.mkv";
        ffprobe := Exited 0 (Some (JObj [("streams",
          JArr [JObj [("index", JInt 1); ("codec_type", JStr "audio")];
                JObj [("index", JInt 2); ("codec_type", JStr "subtitle")];
                JObj [("index", JInt 3); ("codec_type", JStr "subtitle")]])])) |};
     {| video_path := "in/b.mkv"; video_name := "b.mkv";
        ffprobe := Exited 1 None |}]).1 = 2.
Proof.
  refine (proj2 (one_call_per_subtitle_stream (GivenDir "out") _) _).
  reflexivity.
Defined.

Lemma missing_index_aborts_witness :
  ∃ calls',
    sami_programs.extract_videos (DefaultDir "in")
      ([] ++ {| video_path := "in/a.mp4"; video_name := "a.mp4";
                ffprobe := Exited 0 (Some (JObj [("streams",
                  JArr [JObj [("index", JInt 2); ("codec_type", JStr "subtitle")];
                        JObj [("codec_type", JStr "subtitle")]])])) |}
          :: [{| video_path := "in/b.mp4"; video_name := "b.mp4";
                 ffprobe := Exited 0 (Some (JObj [("streams",
                   JArr [JObj [("index", JInt 4);
                               ("codec_type", JStr "subtitle")]])])) |}])
    = ([] ++ calls', Some KeyError)
    ∧ length calls' = 1.
Proof.
  destruct (missing_index_aborts (DefaultDir "in") []
              [{| video_path := "in/b.mp4"; video_name := "b.mp4";
                  ffprobe := Exited 0 (Some (JObj [("streams",
                    JArr [JObj [("index", JInt 4);
                                ("codec_type", JStr "subtitle")]])])) |}]
              {| video_path := "in/a.mp4"; video_name := "a.mp4";
                 ffprobe := Exited 0 (Some (JObj [("streams",
                   JArr [JObj [("index", JInt 2); ("codec_type", JStr "subtitle")];
                         JObj [("codec_type", JStr "subtitle")]])])) |}
              []
              [JObj [("index", JInt 2); ("codec_type", JStr "subtitle")]] []
              (JObj [("codec_type", JStr "subtitle")]) KeyError)
    as (calls' & Hrun & Hlen & _).
  - reflexivity.
  - reflexivity.
  - reflexivity.
  - repeat constructor. by exists (JInt 2).
  - exists calls'. by split.
Defined.
